(** * OAuth_Token_Cleanup_Cron.py: the token expiry sweeper

    A shallow embedding of [src/OAuth_Token_Cleanup_Cron.py] and the
    properties of its single pass over the [oauth2_tokens] table.

    Conventions of the embedding
    - Python integers are [Z]; UUID column values are [N].
    - A [datetime] is its wall-clock reading in microseconds since
      0001-01-01T00:00:00 together with the UTC offset of the attached
      [tzinfo] ([None] for a naive value).  Time zones are fixed-offset
      zones, as [pytz.utc] and [datetime.timezone] are.
    - The script runs in a state-and-exception monad over a [world]
      (database, cluster handle, standard output, mail handed to the relay).
      What the outside decides (host name, clock, file system, failing
      driver or SMTP calls) is read from an [env].
    - CQL statements are represented by their meaning on the three tables,
      HTML and f-string text by the values spliced into it.
    - Each table is a finite map keyed by its primary key; the columns read
      by the script hold values (no nulls), and the rows of a [SELECT]
      arrive in the order of [map_to_list]. *)

From Stdlib Require Import ZArith Lia.
From stdpp Require Import numbers strings list fin_maps gmap.

Local Open Scope Z_scope.

Abbreviation uuid := N (only parsing).

(** ** Exceptions and the script monad *)

Inductive query : Type :=
  | SelectCountTokens
  | SelectAllTokens
  | DeleteToken (token_id : uuid)
  | SelectCredentialConsumer (credential : uuid)
  | SelectConsumerUsername (consumer : uuid).

Inductive smtp_call : Type :=
  | SmtpConnect (relay : string)
  | SmtpSendmail
  | SmtpQuit.

Inductive exn : Type :=
  | SystemExit (code : Z) (message : string)
  | OverflowError
  | TypeError
  | IndexError
  | NoHostAvailable
  | DriverError (q : query)
  | SMTPException (c : smtp_call).

Inductive result (A : Type) : Type :=
  | Ok (a : A)
  | Raise (x : exn).
Arguments Ok {A} a.
Arguments Raise {A} x.

(** ** [datetime] and [timedelta] *)

Module pydatetime.

Definition US_PER_SECOND : Z := 1000000.
Definition US_PER_DAY : Z := 86400 * US_PER_SECOND.
(** [date.max.toordinal()], 9999-12-31. *)
Definition MAXORDINAL : Z := 3652059.
(** Largest magnitude of [timedelta.days]. *)
Definition MAX_DELTA_DAYS : Z := 999999999.

Record timedelta : Type := { td_us : Z }.

Record datetime : Type := { wall : Z; tzinfo : option Z }.

(** Offset of [pytz.utc]. *)
Definition utc : Z := 0.

(** [datetime.timedelta(seconds=n)] for an integer [n]. *)
Definition timedelta_seconds (n : Z) : result timedelta :=
  if MAX_DELTA_DAYS <? Z.abs (n `div` 86400) then Raise OverflowError
  else Ok {| td_us := n * US_PER_SECOND |}.

(** [dt.replace(tzinfo=tz)]: the wall clock is kept. *)
Definition replace_tzinfo (dt : datetime) (tz : option Z) : datetime :=
  {| wall := wall dt; tzinfo := tz |}.

(** [dt.toordinal()], day 1 being 0001-01-01. *)
Definition toordinal_us (us : Z) : Z := us `div` US_PER_DAY + 1.

(** [dt + td]: wall-clock addition, the zone kept, [OverflowError]
    outside years 1..9999. *)
Definition add (dt : datetime) (td : timedelta) : result datetime :=
  let us := wall dt + td_us td in
  if (0 <? toordinal_us us) && (toordinal_us us <=? MAXORDINAL)
  then Ok {| wall := us; tzinfo := tzinfo dt |}
  else Raise OverflowError.

(** [a > b]: equal offsets compare wall clocks, different offsets
    compare [a - b] after subtracting the offsets, and a naive value
    does not compare with an aware one. *)
Definition gt (a b : datetime) : result bool :=
  match tzinfo a, tzinfo b with
  | None, None => Ok (wall b <? wall a)
  | Some oa, Some ob =>
      if oa =? ob then Ok (wall b <? wall a)
      else Ok (0 <? (wall a - wall b) + ob - oa)
  | _, _ => Raise TypeError
  end.

(** The instant an aware value denotes, in UTC microseconds; a naive
    value is read as UTC. *)
Definition instant (dt : datetime) : Z :=
  wall dt - default utc (tzinfo dt).

End pydatetime.
Import pydatetime.

(** ** The insertion-ordered [dict] of the tally *)

Module pydict.

Fixpoint get (k : uuid) (d : list (uuid * Z)) : option Z :=
  match d with
  | [] => None
  | (k', v) :: d' => if decide (k' = k) then Some v else get k d'
  end.

(** [d[k] = v]: an existing key keeps its position, a new one goes last. *)
Fixpoint set (k : uuid) (v : Z) (d : list (uuid * Z)) : list (uuid * Z) :=
  match d with
  | [] => [(k, v)]
  | (k', v') :: d' =>
      if decide (k' = k) then (k', v) :: d' else (k', v') :: set k v d'
  end.

Definition keys (d : list (uuid * Z)) : list uuid := d.*1.
Definition values (d : list (uuid * Z)) : list Z := d.*2.

Definition sum_values (d : list (uuid * Z)) : Z := foldr Z.add 0 (values d).

End pydict.

(** ** Tables, rows and the world *)

Record token_data : Type := {
  t_credential_id : uuid;
  t_expires_in : Z;
  t_created_at : datetime
}.

Record token_row : Type := {
  id : uuid;
  credential_id : uuid;
  expires_in : Z;
  created_at : datetime
}.

Definition row_of (kd : uuid * token_data) : token_row :=
  {| id := kd.1;
     credential_id := t_credential_id kd.2;
     expires_in := t_expires_in kd.2;
     created_at := t_created_at kd.2 |}.

(** Each table is keyed by its primary key [id]. *)
Record database : Type := {
  oauth2_tokens : gmap uuid token_data;
  oauth2_credentials : gmap uuid uuid;
  consumers : gmap uuid string
}.

Inductive output_line : Type :=
  | OutCountBefore (n : Z)
  | OutDeleting (token credential : uuid) (ttl : Z) (created expired : datetime)
  | OutCountAfter (n : Z)
  | OutAbuse (keyspace : string) (consumer : uuid) (username : string) (value : Z).

Record abuse_line : Type := {
  al_keyspace : string;
  al_consumer_id : uuid;
  al_consumer_name : string;
  al_tokens_created : Z
}.

Record report : Type := {
  rep_server : string;
  rep_keyspace : string;
  rep_rows_deleted : Z;
  rep_abuse : list abuse_line
}.

Record message : Type := {
  mail_relay : string;
  mail_from : string;
  mail_to : list string;
  mail_subject : string * string * datetime;
  mail_body : report
}.

Record connection : Type := {
  conn_host : string;
  conn_keyspace : string;
  conn_user : string;
  conn_password : string;
  conn_ca_certs : option string
}.

Record world : Type := {
  db : database;
  connections : list connection;
  cluster_open : bool;
  stdout : list output_line;
  outbox : list message
}.

Record env : Type := {
  hostname : string;
  utcnow : Z;
  path_exists : string → bool;
  connect_fails : connection → bool;
  execute_fails : query → bool;
  smtp_fails : smtp_call → bool
}.

Definition M (A : Type) : Type := world → world * result A.

Definition ret {A} (a : A) : M A := λ w, (w, Ok a).
Definition raise {A} (x : exn) : M A := λ w, (w, Raise x).
Definition bind {A B} (m : M A) (f : A → M B) : M B :=
  λ w, match m w with
       | (w1, Ok a) => f a w1
       | (w1, Raise x) => (w1, Raise x)
       end.
Definition lift {A} (r : result A) : M A := λ w, (w, r).

Notation "'let*' x := m 'in' k" := (bind m (λ x, k))
  (at level 10, x name, m at level 100, k at level 200,
   format "'[v' 'let*'  x  :=  m  'in'  '/' k ']'").
Notation "'exec' m 'in' k" := (bind m (λ _, k))
  (at level 10, m at level 100, k at level 200,
   format "'[v' 'exec'  m  'in'  '/' k ']'").

(** ** Primitive effects *)

Definition print (line : output_line) : M unit := λ w,
  ({| db := db w; connections := connections w;
      cluster_open := cluster_open w;
      stdout := stdout w ++ [line]; outbox := outbox w |}, Ok tt).

(** [Cluster(...)] followed by [cluster.connect(keyspace)]. *)
Definition cluster_connect (e : env) (c : connection) : M unit := λ w,
  let attempted := connections w ++ [c] in
  if connect_fails e c then
    ({| db := db w; connections := attempted;
        cluster_open := cluster_open w;
        stdout := stdout w; outbox := outbox w |}, Raise NoHostAvailable)
  else
    ({| db := db w; connections := attempted; cluster_open := true;
        stdout := stdout w; outbox := outbox w |}, Ok tt).

(** [cluster.shutdown()]. *)
Definition cluster_shutdown : M unit := λ w,
  ({| db := db w; connections := connections w; cluster_open := false;
      stdout := stdout w; outbox := outbox w |}, Ok tt).

(** [session.execute(q)]: the driver may raise on any statement. *)
Definition session_execute {A} (e : env) (q : query) (answer : M A) : M A :=
  if execute_fails e q then raise (DriverError q) else answer.

(** [SELECT COUNT( * ) FROM oauth2_tokens], then [.one()[0]]. *)
Definition select_count (e : env) : M Z :=
  session_execute e SelectCountTokens
    (λ w, (w, Ok (Z.of_nat (size (oauth2_tokens (db w)))))).

(** [SELECT id, credential_id, expires_in, created_at FROM oauth2_tokens]. *)
Definition select_tokens (e : env) : M (list token_row) :=
  session_execute e SelectAllTokens
    (λ w, (w, Ok (row_of <$> map_to_list (oauth2_tokens (db w))))).

(** [DELETE from oauth2_tokens where id=...]. *)
Definition delete_token (e : env) (token : uuid) : M unit :=
  session_execute e (DeleteToken token)
    (λ w, ({| db := {| oauth2_tokens := delete token (oauth2_tokens (db w));
                       oauth2_credentials := oauth2_credentials (db w);
                       consumers := consumers (db w) |};
              connections := connections w; cluster_open := cluster_open w;
              stdout := stdout w; outbox := outbox w |}, Ok tt)).

(** [SELECT consumer_id FROM oauth2_credentials where id = ...]. *)
Definition select_consumer_id (e : env) (credential : uuid) : M (list uuid) :=
  session_execute e (SelectCredentialConsumer credential)
    (λ w, (w, Ok (option_list (oauth2_credentials (db w) !! credential)))).

(** [SELECT username FROM consumers where id = ...]. *)
Definition select_username (e : env) (consumer : uuid) : M (list string) :=
  session_execute e (SelectConsumerUsername consumer)
    (λ w, (w, Ok (option_list (consumers (db w) !! consumer)))).

(** [rows[0]]. *)
Definition index0 {A} (rows : list A) : M A :=
  match rows with
  | [] => raise IndexError
  | r :: _ => ret r
  end.

(** [smtplib]: a call of the relay, which may raise. *)
Definition smtp (e : env) (c : smtp_call) : M unit :=
  if smtp_fails e c then raise (SMTPException c) else ret tt.

(** [server.sendmail(...)]: the message is handed to the relay. *)
Definition sendmail (e : env) (msg : message) : M unit :=
  exec smtp e SmtpSendmail in
  λ w, ({| db := db w; connections := connections w;
           cluster_open := cluster_open w;
           stdout := stdout w; outbox := outbox w ++ [msg] |}, Ok tt).

(** ** The script *)

(** The [argparse] namespace. *)
Record Args : Type := {
  cassandrahost : string;
  keyspace : string;
  username : string;
  password : string;
  email : option string;
  sender : option string;
  smtpserver : option string;
  ssl : bool;
  ca : option string
}.

(** Truth value of a [str]. *)
Definition nonempty (s : string) : bool := negb (String.eqb s "").

(** Truth value of an optional [str] argument. *)
Definition truthy (o : option string) : bool :=
  match o with
  | Some s => nonempty s
  | None => false
  end.

(** [parser.error(msg)] exits with status 2. *)
Definition parser_error {A} (msg : string) : M A := raise (SystemExit 2 msg).

(** Lines 40-51: validation of [--ssl] and [--ca]; the result is the
    [ca_certs] entry of [ssl_opts], [None] for the empty dict. *)
Definition ssl_validation (e : env) (args : Args) : M (option string) :=
  if ssl args then
    match ca args with
    | None => parser_error "--ssl requires --ca to set a truststore"
    | Some ca =>
        if negb (path_exists e ca)
        then parser_error "--ca file not found or reachable"
        else ret (Some ca)
    end
  else ret None.

Definition sendEmailAlert (e : env) (args : Args)
    (BODY : report) (dbhost subject : string) (exec_time : datetime) : M unit :=
  match email args, smtpserver args with
  | Some to_addr, Some relay =>
      if nonempty to_addr && nonempty relay then
        let sender :=
          match sender args with
          | Some s => if nonempty s then s
                      else dbhost +:+ " OAuth Token Cleanup Script"
          | None => dbhost +:+ " OAuth Token Cleanup Script"
          end in
        let recipients := [to_addr] in
        let msg := {| mail_relay := relay; mail_from := sender;
                      mail_to := recipients;
                      mail_subject := (dbhost, subject, exec_time);
                      mail_body := BODY |} in
        exec smtp e (SmtpConnect relay) in
        exec sendmail e msg in
        smtp e SmtpQuit
      else ret tt
  | _, _ => ret tt
  end.

(** Lines 84-87: a naive [created_at] gets [pytz.utc] attached. *)
Definition aware_created_at (token_row : token_row) : datetime :=
  match tzinfo (created_at token_row) with
  | None => replace_tzinfo (created_at token_row) (Some utc)
  | Some _ => created_at token_row
  end.

(** Line 90: [created_at + timedelta(seconds=expires_in)]. *)
Definition expiration_time_of (token_row : token_row) : result datetime :=
  match timedelta_seconds (expires_in token_row) with
  | Ok td => add (aware_created_at token_row) td
  | Raise x => Raise x
  end.

(** Line 92: the test [current_time > expiration_time] of one row. *)
Definition expired (current_time : datetime) (token_row : token_row)
    : result bool :=
  match expiration_time_of token_row with
  | Ok expiration_time => gt current_time expiration_time
  | Raise x => Raise x
  end.

(** Lines 94-97: one more deleted token for a credential. *)
Definition tally (credential : uuid) (consumer_tokens : list (uuid * Z))
    : list (uuid * Z) :=
  match pydict.get credential consumer_tokens with
  | Some n => pydict.set credential (n + 1) consumer_tokens
  | None => pydict.set credential 1 consumer_tokens
  end.

(** Lines 82-101: the loop over the fetched rows, with the two counters
    it updates. *)
Fixpoint scan (e : env) (current_time : datetime) (rows : list token_row)
    (rowsdeleted : Z) (consumer_tokens : list (uuid * Z))
    : M (Z * list (uuid * Z)) :=
  match rows with
  | [] => ret (rowsdeleted, consumer_tokens)
  | token_row :: rows' =>
      let* expiration_time := lift (expiration_time_of token_row) in
      let* is_expired := lift (gt current_time expiration_time) in
      if is_expired : bool then
        let consumer_tokens' := tally (credential_id token_row) consumer_tokens in
        exec print (OutDeleting (id token_row) (credential_id token_row)
                      (expires_in token_row) (aware_created_at token_row)
                      expiration_time) in
        let rowsdeleted' := rowsdeleted + 1 in
        exec delete_token e (id token_row) in
        scan e current_time rows' rowsdeleted' consumer_tokens'
      else scan e current_time rows' rowsdeleted consumer_tokens
  end.

(** Lines 108-118: the loop over [consumer_tokens.items()]. *)
Fixpoint abuse_loop (e : env) (keyspace : string) (items : list (uuid * Z))
    (consumer_abuse_table : list abuse_line) : M (list abuse_line) :=
  match items with
  | [] => ret consumer_abuse_table
  | (key, value) :: items' =>
      if 100 <=? value then
        let* offending_creds := select_consumer_id e key in
        let* offending_consumer_id := index0 offending_creds in
        let* offending_consumer := select_username e offending_consumer_id in
        let* offending_consumer_username := index0 offending_consumer in
        exec print (OutAbuse keyspace offending_consumer_id
                      offending_consumer_username value) in
        abuse_loop e keyspace items'
          (consumer_abuse_table ++
             [{| al_keyspace := keyspace;
                 al_consumer_id := offending_consumer_id;
                 al_consumer_name := offending_consumer_username;
                 al_tokens_created := value |}])
      else abuse_loop e keyspace items' consumer_abuse_table
  end.

(** The local variables of [deleteExpiredIDs] when it returns. *)
Record locals : Type := {
  current_time : datetime;
  count_before : Z;
  rowsdeleted : Z;
  consumer_tokens : list (uuid * Z);
  count_after : Z;
  consumer_abuse_table : list abuse_line
}.

(** Lines 66-121.  The Python function returns [None]; the embedding
    returns its local variables. *)
Definition deleteExpiredIDs (e : env) (args : Args) (casshost : string)
    (ssl_opts : option string) (host keyspace user password : string)
    : M locals :=
  exec cluster_connect e {| conn_host := host; conn_keyspace := keyspace;
                            conn_user := user; conn_password := password;
                            conn_ca_certs := ssl_opts |} in
  let current_time := {| wall := utcnow e; tzinfo := Some utc |} in
  let exec_time := current_time in
  let* count_before := select_count e in
  exec print (OutCountBefore count_before) in
  let* rows := select_tokens e in
  let* counters := scan e current_time rows 0 [] in
  let rowsdeleted := counters.1 in
  let consumer_tokens := counters.2 in
  let* count_after := select_count e in
  exec print (OutCountAfter count_after) in
  let* consumer_abuse_table := abuse_loop e keyspace consumer_tokens [] in
  exec sendEmailAlert e args
         {| rep_server := casshost; rep_keyspace := keyspace;
            rep_rows_deleted := rowsdeleted;
            rep_abuse := consumer_abuse_table |}
         casshost "OAuth Token Cleanup" exec_time in
  exec cluster_shutdown in
  ret {| current_time := current_time; count_before := count_before;
         rowsdeleted := rowsdeleted; consumer_tokens := consumer_tokens;
         count_after := count_after;
         consumer_abuse_table := consumer_abuse_table |}.

(** The module body: host name, argument validation, then the sweep. *)
Definition main (e : env) (args : Args) : M locals :=
  let casshost := hostname e in
  let* ssl_opts := ssl_validation e args in
  deleteExpiredIDs e args casshost ssl_opts
    (cassandrahost args) (keyspace args) (username args) (password args).

(** A process that has not yet touched anything, in front of database [d]. *)
Definition fresh (d : database) : world :=
  {| db := d; connections := []; cluster_open := false;
     stdout := []; outbox := [] |}.

(** ** Vocabulary of the statements *)

(** The expiration instant of a stored token, in UTC microseconds. *)
Definition expiry_instant (d : token_data) : Z :=
  instant (t_created_at d) + t_expires_in d * US_PER_SECOND.

(** The row's expiration instant lies strictly before [now]. *)
Definition past (now : datetime) (row : token_row) : Prop :=
  instant (created_at row) + expires_in row * US_PER_SECOND < instant now.

#[global] Instance past_dec now row : Decision (past now row).
Proof. unfold past. apply _. Defined.

(** The effect of the loop of lines 82-101 on the table and on the tally,
    for the rows [dels] it deletes. *)
Definition delete_rows (dels : list token_row) (t : gmap uuid token_data)
    : gmap uuid token_data :=
  foldl (λ m row, delete (id row) m) t dels.

Definition tally_rows (dels : list token_row) (ct : list (uuid * Z))
    : list (uuid * Z) :=
  foldl (λ ct row, tally (credential_id row) ct) ct dels.

(** Number of rows of credential [c]. *)
Definition rows_of_credential (c : uuid) (rows : list token_row) : Z :=
  Z.of_nat (length (filter (λ row, credential_id row = c) rows)).

(** The tokens of [before] that are gone in [after]. *)
Definition deleted_tokens (before after : database) : list (uuid * token_data) :=
  filter (λ kd, oauth2_tokens after !! kd.1 = None)
         (map_to_list (oauth2_tokens before)).

(** How many of them belong to credential [c]. *)
Definition deleted_for (c : uuid) (before after : database) : Z :=
  Z.of_nat (length (filter (λ kd, t_credential_id kd.2 = c)
                           (deleted_tokens before after))).

(** The guard of [sendEmailAlert]. *)
Definition mail_enabled (args : Args) : bool :=
  truthy (email args) && truthy (smtpserver args).

(** The entries of the tally that reach the abuse threshold. *)
Definition offenders (consumer_tokens : list (uuid * Z)) : list (uuid * Z) :=
  filter (λ kv, 100 ≤ kv.2) consumer_tokens.

(** What the abuse report holds for one tally entry, given the
    credential and consumer tables. *)
Definition reported (creds : gmap uuid uuid) (names : gmap uuid string)
    (keyspace : string) (kv : uuid * Z) (line : abuse_line) : Prop :=
  ∃ consumer name,
    creds !! kv.1 = Some consumer ∧
    names !! consumer = Some name ∧
    line = {| al_keyspace := keyspace; al_consumer_id := consumer;
              al_consumer_name := name; al_tokens_created := kv.2 |}.

(** The observation [f] of the world reads the same before and after. *)
Definition same {X} (f : world → X) (w w' : world) : Prop := f w' = f w.

Definition tokens (w : world) : gmap uuid token_data := oauth2_tokens (db w).
Definition credentials (w : world) : gmap uuid uuid :=
  oauth2_credentials (db w).
Definition usernames (w : world) : gmap uuid string := consumers (db w).

(** [ignores_stdout f] says that the observation [f] does not look at
    standard output, and so on for the other fields. *)
Definition ignores_stdout {X} (f : world → X) : Prop :=
  ∀ w out, f {| db := db w; connections := connections w;
                cluster_open := cluster_open w;
                stdout := out; outbox := outbox w |} = f w.

Definition ignores_tokens {X} (f : world → X) : Prop :=
  ∀ w t, f {| db := {| oauth2_tokens := t;
                       oauth2_credentials := oauth2_credentials (db w);
                       consumers := consumers (db w) |};
              connections := connections w; cluster_open := cluster_open w;
              stdout := stdout w; outbox := outbox w |} = f w.

Definition ignores_outbox {X} (f : world → X) : Prop :=
  ∀ w box, f {| db := db w; connections := connections w;
                cluster_open := cluster_open w;
                stdout := stdout w; outbox := box |} = f w.

(** What a run, completed or not, has handed to the relay. *)
Definition mailed (args : Args) (w w' : world) : Prop :=
  ∃ sent, outbox w' = outbox w ++ sent ∧ (length sent ≤ 1)%nat ∧
          (mail_enabled args = false → sent = []).

(** [w'] holds no token that [w] does not hold, and every token of [w]
    that is missing in [w'] had its expiration strictly before [now]. *)
Definition only_expired_gone (now : datetime) (w w' : world) : Prop :=
  tokens w' ⊆ tokens w ∧
  ∀ k d, tokens w !! k = Some d → tokens w' !! k = None →
         expiry_instant d < instant now.

(** The rows in hand are rows of the table as it stands. *)
Definition rows_current (rows : list token_row) (w : world) : Prop :=
  ∀ row d, row ∈ rows → tokens w !! id row = Some d → row = row_of (id row, d).

(** [m] keeps [R] between the worlds around it, however it ends. *)
Definition preserves {A} (R : world → world → Prop) (m : M A) : Prop :=
  ∀ w w' r, m w = (w', r) → R w w'.

(** ** Vocabulary of the further properties *)

(** The observation [f] does not look at the cluster handle nor at the
    connections made. *)
Definition ignores_session {X} (f : world → X) : Prop :=
  ∀ w conns o, f {| db := db w; connections := conns; cluster_open := o;
                    stdout := stdout w; outbox := outbox w |} = f w.

(** The console line printed for a deleted row (line 99). *)
Definition deleting_line (row : token_row) (line : output_line) : Prop :=
  ∃ expiration_time,
    expiration_time_of row = Ok expiration_time ∧
    line = OutDeleting (id row) (credential_id row) (expires_in row)
             (aware_created_at row) expiration_time.

(** The console line printed for an entry of the abuse report (line 114). *)
Definition abuse_output (a : abuse_line) : output_line :=
  OutAbuse (al_keyspace a) (al_consumer_id a) (al_consumer_name a)
    (al_tokens_created a).

(** The credential of a tally entry has a consumer, and the consumer a
    username. *)
Definition resolvable (creds : gmap uuid uuid) (names : gmap uuid string)
    (kv : uuid * Z) : Prop :=
  ∃ consumer name, creds !! kv.1 = Some consumer ∧
                   names !! consumer = Some name.

(** The ttl fits a [timedelta] and the expiration falls within the years
    1 to 9999. *)
Definition in_range (row : token_row) : Prop :=
  Z.abs (expires_in row `div` 86400) ≤ MAX_DELTA_DAYS ∧
  0 ≤ wall (created_at row) + expires_in row * US_PER_SECOND
    < MAXORDINAL * US_PER_DAY.

(** The driver raises on no statement. *)
Definition healthy (e : env) : Prop := ∀ q, execute_fails e q = false.

(** The connection the script asks for. *)
Definition connection_of (args : Args) (ssl_opts : option string)
    : connection :=
  {| conn_host := cassandrahost args; conn_keyspace := keyspace args;
     conn_user := username args; conn_password := password args;
     conn_ca_certs := ssl_opts |}.

(** Whenever [m] raises, the exception satisfies [P]. *)
Definition raises {A} (P : exn → Prop) (m : M A) : Prop :=
  ∀ w w' x, m w = (w', Raise x) → P x.

(** The exception does not come from [smtplib]. *)
Definition not_smtp (x : exn) : Prop := ∀ c, x ≠ SMTPException c.

(** The step of the scan on [row] raises [x]: the expiration cannot be
    computed or compared, or the row is due and the driver refuses the
    delete. *)
Definition step_fails (e : env) (now : datetime) (row : token_row)
    (x : exn) : Prop :=
  expired now row = Raise x ∨
  (expired now row = Ok true ∧
   execute_fails e (DeleteToken (id row)) = true ∧
   x = DriverError (DeleteToken (id row))).

(** ** Concrete runs *)

Module example.

(** Some instant [T], in microseconds. *)
Definition T : Z := 63900000000 * US_PER_SECOND.

Definition naive (us : Z) : datetime := {| wall := us; tzinfo := None |}.
Definition aware (us offset : Z) : datetime :=
  {| wall := us; tzinfo := Some offset |}.

Definition token (credential : uuid) (ttl : Z) (created : datetime)
    : token_data :=
  {| t_credential_id := credential; t_expires_in := ttl;
     t_created_at := created |}.

(** A healthy environment whose clock reads [T + 3601 s]. *)
Definition env_ok : env :=
  {| hostname := "cass01"; utcnow := T + 3601 * US_PER_SECOND;
     path_exists := λ p, String.eqb p "/etc/kong/truststore.pem";
     connect_fails := λ _, false;
     execute_fails := λ _, false;
     smtp_fails := λ _, false |}.

(** The same, except that the driver raises on the delete of token 1. *)
Definition env_delete_fails : env :=
  {| hostname := "cass01"; utcnow := T + 3601 * US_PER_SECOND;
     path_exists := λ p, String.eqb p "/etc/kong/truststore.pem";
     connect_fails := λ _, false;
     execute_fails := λ q, match q with
                           | DeleteToken 1%N => true
                           | _ => false
                           end;
     smtp_fails := λ _, false |}.

(** A healthy database behind a relay that refuses the message. *)
Definition env_sendmail_fails : env :=
  {| hostname := "cass01"; utcnow := T + 3601 * US_PER_SECOND;
     path_exists := λ p, String.eqb p "/etc/kong/truststore.pem";
     connect_fails := λ _, false;
     execute_fails := λ _, false;
     smtp_fails := λ c, match c with
                        | SmtpSendmail => true
                        | _ => false
                        end |}.

(** The healthy environment an hour later. *)
Definition env_later : env :=
  {| hostname := "cass01"; utcnow := T + 7201 * US_PER_SECOND;
     path_exists := λ p, String.eqb p "/etc/kong/truststore.pem";
     connect_fails := λ _, false;
     execute_fails := λ _, false;
     smtp_fails := λ _, false |}.


Definition args_of (to_addr from_addr relay : option string)
    (use_ssl : bool) (ca_path : option string) : Args :=
  {| cassandrahost := "localhost"; keyspace := "kong_dev";
     username := "dbausername"; password := "dbapassword";
     email := to_addr; sender := from_addr;
     smtpserver := relay; ssl := use_ssl; ca := ca_path |}.

Definition args_mail : Args :=
  args_of (Some "email@server.com") None (Some "mail.relay.com") false None.

Definition args_quiet : Args := args_of None None None false None.

Definition args_ssl_without_ca : Args :=
  args_of None None None true None.

Definition args_ssl_missing_file : Args :=
  args_of None None None true (Some "/nowhere/truststore.pem").

Definition args_ssl : Args :=
  args_of None None None true (Some "/etc/kong/truststore.pem").

(** [--ca] without [--ssl], naming a file that does not exist. *)
Definition args_ca_without_ssl : Args :=
  args_of None None None false (Some "/nowhere/truststore.pem").

Definition directory_credentials : gmap uuid uuid :=
  list_to_map [(10%N, 100%N); (20%N, 200%N)].
Definition directory_consumers : gmap uuid string :=
  list_to_map [(100%N, "alice"); (200%N, "bob")].

(** Four tokens: created at [T] with ttl 3600 (expired one second ago),
    created two seconds later (not yet expired), one stored with an
    explicit +01:00 offset (expired), and one expiring exactly now. *)
Definition db_small : database :=
  {| oauth2_tokens := list_to_map
       [(1%N, token 10 3600 (naive T));
        (2%N, token 10 3600 (naive (T + 2 * US_PER_SECOND)));
        (3%N, token 20 3600
                (aware (T + 3600 * US_PER_SECOND) (3600 * US_PER_SECOND)));
        (4%N, token 20 3601 (naive T))];
     oauth2_credentials := directory_credentials;
     consumers := directory_consumers |}.

(** Credential 10 has 150 expired tokens, credential 20 has 40. *)
Definition db_abuse : database :=
  {| oauth2_tokens := list_to_map
       (((λ i, (N.of_nat i, token 10 3600 (naive T))) <$> seq 0 150) ++
        ((λ i, (N.of_nat i, token 20 3600 (naive T))) <$> seq 150 40));
     oauth2_credentials := directory_credentials;
     consumers := directory_consumers |}.

Definition sweep (e : env) (args : Args) (ssl_opts : option string)
    : M locals :=
  deleteExpiredIDs e args (hostname e) ssl_opts
    (cassandrahost args) (keyspace args) (username args) (password args).

End example.

(** * Properties *)

(** ** Time arithmetic *)

Lemma gt_aware a b oa ob :
  tzinfo a = Some oa → tzinfo b = Some ob →
  gt a b = Ok (bool_decide (instant b < instant a)).
Proof.
  intros Ha Hb. unfold gt, instant. rewrite Ha, Hb. simpl.
  destruct (Z.eqb_spec oa ob) as [->|Hne]; f_equal.
  - destruct (Z.ltb_spec (wall b) (wall a)); symmetry;
      [apply bool_decide_eq_true_2 | apply bool_decide_eq_false_2]; lia.
  - destruct (Z.ltb_spec 0 (wall a - wall b + ob - oa)); symmetry;
      [apply bool_decide_eq_true_2 | apply bool_decide_eq_false_2]; lia.
Qed.

Lemma aware_created_at_tzinfo row :
  ∃ o, tzinfo (aware_created_at row) = Some o.
Proof.
  unfold aware_created_at.
  destruct (tzinfo (created_at row)) as [o|] eqn:E; eauto.
Qed.

Lemma aware_created_at_instant row :
  instant (aware_created_at row) = instant (created_at row).
Proof.
  unfold aware_created_at, instant.
  destruct (tzinfo (created_at row)) as [o|] eqn:E; simpl; [by rewrite E|done].
Qed.

Lemma expiration_time_of_ok row x :
  expiration_time_of row = Ok x →
  (∃ o, tzinfo x = Some o) ∧
  instant x = instant (created_at row) + expires_in row * US_PER_SECOND.
Proof.
  unfold expiration_time_of, timedelta_seconds, add.
  destruct (MAX_DELTA_DAYS <? _); [done|]. simpl.
  destruct (_ && _); [|done]. intros [= <-]. simpl. split.
  - apply aware_created_at_tzinfo.
  - rewrite <- aware_created_at_instant. unfold instant. simpl. lia.
Qed.

(** The comparison of line 92 decides "now is strictly after the
    expiration instant". *)
Lemma expired_ok now o row b :
  tzinfo now = Some o →
  expired now row = Ok b →
  b = bool_decide
        (instant (created_at row) + expires_in row * US_PER_SECOND
         < instant now).
Proof.
  intros Hnow. unfold expired.
  destruct (expiration_time_of row) as [x|] eqn:Hx; [|done].
  apply expiration_time_of_ok in Hx as [[ox Hox] Hi].
  rewrite (gt_aware _ _ _ _ Hnow Hox), Hi. by intros [= <-].
Qed.

(** After normalisation the comparison never mixes naive and aware. *)
Lemma expired_no_type_error now o row :
  tzinfo now = Some o → expired now row ≠ Raise TypeError.
Proof.
  intros Hnow. unfold expired.
  destruct (expiration_time_of row) as [x|x] eqn:Hx.
  - apply expiration_time_of_ok in Hx as [[ox Hox] _].
    by rewrite (gt_aware _ _ _ _ Hnow Hox).
  - unfold expiration_time_of, timedelta_seconds, add in Hx.
    destruct (MAX_DELTA_DAYS <? _); [congruence|]. simpl in Hx.
    destruct (_ && _); congruence.
Qed.

(** ** The script monad *)

Lemma bind_ok {A B} (m : M A) (f : A → M B) w w' b :
  bind m f w = (w', Ok b) →
  ∃ w1 a, m w = (w1, Ok a) ∧ f a w1 = (w', Ok b).
Proof.
  unfold bind. destruct (m w) as [w1 [a|x]] eqn:E; [eauto|done].
Qed.

Lemma bind_step {A B} (m : M A) (f : A → M B) w w1 a :
  m w = (w1, Ok a) → bind m f w = f a w1.
Proof. unfold bind. by intros ->. Qed.

Lemma lift_ok {A} (r : result A) w w' a :
  lift r w = (w', Ok a) → w' = w ∧ r = Ok a.
Proof. unfold lift. by intros [= -> ->]. Qed.

#[local] Instance same_preorder {X} (f : world → X) : PreOrder (same f).
Proof.
  split; [done|]. intros w1 w2 w3 H12 H23. unfold same in *. congruence.
Qed.

Section preservation.
Context (R : world → world → Prop) `{!PreOrder R}.

Lemma preserves_ret {A} (a : A) : preserves R (ret a).
Proof. intros w w' r [= <- _]. reflexivity. Qed.

Lemma preserves_raise {A} x : preserves R (raise (A:=A) x).
Proof. intros w w' r [= <- _]. reflexivity. Qed.

Lemma preserves_lift {A} (a : result A) : preserves R (lift a).
Proof. intros w w' r [= <- _]. reflexivity. Qed.

Lemma preserves_bind {A B} (m : M A) (f : A → M B) :
  preserves R m → (∀ a, preserves R (f a)) → preserves R (bind m f).
Proof.
  intros Hm Hf w w' r. unfold bind.
  destruct (m w) as [w1 [a|x]] eqn:E.
  - intros Hk. etrans; [by eapply Hm | by eapply Hf].
  - intros [= <- _]. by eapply Hm.
Qed.

Lemma preserves_session_execute {A} e q (answer : M A) :
  preserves R answer → preserves R (session_execute e q answer).
Proof.
  intros Ha. unfold session_execute.
  destruct (execute_fails e q); [apply preserves_raise | done].
Qed.

Lemma preserves_index0 {A} (rows : list A) : preserves R (index0 rows).
Proof. destruct rows; [apply preserves_raise | apply preserves_ret]. Qed.

Lemma preserves_smtp e c : preserves R (smtp e c).
Proof.
  unfold smtp. destruct (smtp_fails e c);
    [apply preserves_raise | apply preserves_ret].
Qed.

End preservation.

(** A step that only answers leaves every observation alone. *)
Ltac answers_only :=
  let H := fresh in
  intros ? ? ? H; cbv beta in H; injection H as <- _; reflexivity.

(** Steps through a straight-line monadic body. *)
Ltac preserved :=
  repeat first
    [ apply preserves_ret | apply preserves_raise | apply preserves_lift
    | apply preserves_index0 | apply preserves_smtp
    | apply preserves_session_execute
    | apply preserves_bind; [|intros ?]
    | assumption
    | apply same_preorder
    | answers_only ].

Lemma select_count_preserves {X} (f : world → X) e :
  preserves (same f) (select_count e).
Proof. unfold select_count. preserved. Qed.

Lemma select_tokens_preserves {X} (f : world → X) e :
  preserves (same f) (select_tokens e).
Proof. unfold select_tokens. preserved. Qed.

Lemma select_consumer_id_preserves {X} (f : world → X) e c :
  preserves (same f) (select_consumer_id e c).
Proof. unfold select_consumer_id. preserved. Qed.

Lemma select_username_preserves {X} (f : world → X) e c :
  preserves (same f) (select_username e c).
Proof. unfold select_username. preserved. Qed.

Lemma print_preserves {X} (f : world → X) line :
  ignores_stdout f → preserves (same f) (print line).
Proof. intros Hf w w' r [= <- _]. apply Hf. Qed.

Lemma delete_token_preserves {X} (f : world → X) e token :
  ignores_tokens f → preserves (same f) (delete_token e token).
Proof.
  intros Hf. unfold delete_token. apply preserves_session_execute; [apply _|].
  intros w w' r [= <- _]. apply Hf.
Qed.

Lemma sendmail_preserves {X} (f : world → X) e msg :
  ignores_outbox f → preserves (same f) (sendmail e msg).
Proof.
  intros Hf. unfold sendmail. apply preserves_bind; [apply _| |intros _].
  - apply preserves_smtp, _.
  - intros w w' r [= <- _]. apply Hf.
Qed.

Lemma scan_preserves {X} (f : world → X) e now rows rd ct :
  ignores_stdout f → ignores_tokens f →
  preserves (same f) (scan e now rows rd ct).
Proof.
  intros Hs Ht. revert rd ct.
  induction rows as [|row rows IH]; intros rd ct; simpl.
  - apply preserves_ret, _.
  - apply preserves_bind; [apply _|apply preserves_lift, _|intros x].
    apply preserves_bind; [apply _|apply preserves_lift, _|intros [|]]; [|done].
    apply preserves_bind; [apply _|by apply print_preserves|intros _].
    apply preserves_bind; [apply _|by apply delete_token_preserves|intros _].
    done.
Qed.

Lemma abuse_loop_preserves {X} (f : world → X) e ks items table :
  ignores_stdout f → preserves (same f) (abuse_loop e ks items table).
Proof.
  intros Hs. revert table.
  induction items as [|[key value] items IH]; intros table; simpl.
  - apply preserves_ret, _.
  - destruct (100 <=? value); [|done].
    apply preserves_bind; [apply _|apply select_consumer_id_preserves|intros ?].
    apply preserves_bind; [apply _|apply preserves_index0, _|intros ?].
    apply preserves_bind; [apply _|apply select_username_preserves|intros ?].
    apply preserves_bind; [apply _|apply preserves_index0, _|intros ?].
    apply preserves_bind; [apply _|by apply print_preserves|intros _].
    done.
Qed.

Lemma sendEmailAlert_preserves {X} (f : world → X) e args body host subj t :
  ignores_outbox f → preserves (same f) (sendEmailAlert e args body host subj t).
Proof.
  intros Hb. unfold sendEmailAlert.
  destruct (email args) as [to_addr|]; [|apply preserves_ret, _].
  destruct (smtpserver args) as [relay|]; [|apply preserves_ret, _].
  destruct (_ && _); [|apply preserves_ret, _].
  apply preserves_bind; [apply _|apply preserves_smtp, _|intros _].
  apply preserves_bind; [apply _|by apply sendmail_preserves|intros _].
  apply preserves_smtp, _.
Qed.

(** ** The tally dictionary *)

Lemma get_set_eq k v d : pydict.get k (pydict.set k v d) = Some v.
Proof.
  induction d as [|[k' v'] d IH]; simpl.
  - by rewrite decide_True.
  - destruct (decide (k' = k)) as [->|Hne]; simpl.
    + by rewrite decide_True.
    + by rewrite decide_False.
Qed.

Lemma get_set_ne k k' v d :
  k ≠ k' → pydict.get k' (pydict.set k v d) = pydict.get k' d.
Proof.
  intros Hne. induction d as [|[k0 v0] d IH]; simpl.
  - by rewrite decide_False.
  - destruct (decide (k0 = k)) as [->|Hne0]; simpl.
    + by rewrite !decide_False.
    + destruct (decide (k0 = k')); [done|apply IH].
Qed.

Lemma get_None k d : pydict.get k d = None ↔ k ∉ pydict.keys d.
Proof.
  unfold pydict.keys. induction d as [|[k' v'] d IH]; simpl.
  - split; [intros _; apply not_elem_of_nil | done].
  - rewrite not_elem_of_cons. destruct (decide (k' = k)) as [->|Hne].
    + split; [done | by intros [? _]].
    + rewrite IH. split; [by intros ? | by intros [_ ?]].
Qed.

Lemma get_Some_elem k v d : pydict.get k d = Some v → (k, v) ∈ d.
Proof.
  induction d as [|[k' v'] d IH]; simpl; [done|].
  destruct (decide (k' = k)) as [->|Hne].
  - intros [= ->]. apply elem_of_cons. by left.
  - intros H. apply elem_of_cons. right. by apply IH.
Qed.

Lemma elem_get_Some k v d :
  NoDup (pydict.keys d) → (k, v) ∈ d → pydict.get k d = Some v.
Proof.
  unfold pydict.keys. induction d as [|[k' v'] d IH]; simpl.
  - intros _ H. by apply elem_of_nil in H.
  - intros [Hk Hd]%NoDup_cons [[= -> ->]|Hin]%elem_of_cons.
    + by rewrite decide_True.
    + rewrite decide_False; [by apply IH|].
      intros ->. apply Hk. apply list_elem_of_fmap. by exists (k, v).
Qed.

Lemma keys_set k v d :
  pydict.keys (pydict.set k v d) =
  if decide (k ∈ pydict.keys d) then pydict.keys d else pydict.keys d ++ [k].
Proof.
  unfold pydict.keys. induction d as [|[k' v'] d IH].
  - destruct (decide (k ∈ ([] : list (uuid * Z)).*1)) as [Hin|_]; [|done].
    by apply elem_of_nil in Hin.
  - cbn [pydict.set]. destruct (decide (k' = k)) as [->|Hne].
    + rewrite decide_True; [done | apply elem_of_cons; by left].
    + rewrite fmap_cons, IH. cbn [fst].
      destruct (decide (k ∈ d.*1)) as [Hin|Hnin].
      * rewrite decide_True; [done | apply elem_of_cons; by right].
      * rewrite decide_False; [done|].
        intros [->|?]%elem_of_cons; done.
Qed.

Lemma NoDup_keys_set k v d :
  NoDup (pydict.keys d) → NoDup (pydict.keys (pydict.set k v d)).
Proof.
  intros Hd. rewrite keys_set. destruct (decide _) as [|Hnin]; [done|].
  apply NoDup_app. split_and!; [done| |apply NoDup_singleton].
  intros x Hx ->%list_elem_of_singleton. done.
Qed.

Lemma sum_values_set k v d :
  pydict.sum_values (pydict.set k v d) =
  pydict.sum_values d - default 0 (pydict.get k d) + v.
Proof.
  unfold pydict.sum_values, pydict.values.
  induction d as [|[k' v'] d IH]; csimpl in *; [lia|].
  destruct (decide (k' = k)) as [->|Hne]; csimpl in *; lia.
Qed.

Lemma get_tally c c' ct :
  pydict.get c (tally c' ct) =
  if decide (c' = c) then Some (default 0 (pydict.get c ct) + 1)
  else pydict.get c ct.
Proof.
  unfold tally. destruct (decide (c' = c)) as [->|Hne].
  - destruct (pydict.get c ct) as [n|]; by rewrite get_set_eq.
  - destruct (pydict.get c' ct) as [n|]; by rewrite get_set_ne.
Qed.

Lemma sum_values_tally c ct :
  pydict.sum_values (tally c ct) = pydict.sum_values ct + 1.
Proof.
  unfold tally. destruct (pydict.get c ct) as [n|] eqn:E;
    rewrite sum_values_set, E; simpl; lia.
Qed.

Lemma NoDup_keys_tally c ct :
  NoDup (pydict.keys ct) → NoDup (pydict.keys (tally c ct)).
Proof.
  intros H. unfold tally.
  destruct (pydict.get c ct); by apply NoDup_keys_set.
Qed.

Lemma sum_values_tally_rows dels ct :
  pydict.sum_values (tally_rows dels ct) =
  pydict.sum_values ct + Z.of_nat (length dels).
Proof.
  unfold tally_rows. revert ct.
  induction dels as [|row dels IH]; intros ct; simpl; [lia|].
  rewrite IH, sum_values_tally. lia.
Qed.

Lemma NoDup_keys_tally_rows dels ct :
  NoDup (pydict.keys ct) → NoDup (pydict.keys (tally_rows dels ct)).
Proof.
  unfold tally_rows. revert ct.
  induction dels as [|row dels IH]; intros ct H; simpl; [done|].
  by apply IH, NoDup_keys_tally.
Qed.

Lemma get_tally_rows c dels ct :
  pydict.get c (tally_rows dels ct) =
  if decide (rows_of_credential c dels = 0) then pydict.get c ct
  else Some (default 0 (pydict.get c ct) + rows_of_credential c dels).
Proof.
  unfold tally_rows, rows_of_credential. revert ct.
  induction dels as [|row dels IH]; intros ct; [done|].
  cbn [foldl]. rewrite IH, get_tally, filter_cons.
  destruct (decide (credential_id row = c)) as [Hc|Hc]; [|done].
  cbn [length].
  destruct (decide (Z.of_nat (S _) = 0)) as [|_]; [lia|].
  rewrite Nat2Z.inj_succ.
  set (n := Z.of_nat (length _)). set (v := default 0 _).
  destruct (decide (n = 0)) as [E|E]; cbn [default from_option];
    unfold Datatypes.id; f_equal; lia.
Qed.

(** ** The token table under the deletes of the loop *)

Lemma delete_rows_lookup dels t k :
  delete_rows dels t !! k = if decide (k ∈ id <$> dels) then None else t !! k.
Proof.
  unfold delete_rows. revert t.
  induction dels as [|row dels IH]; intros t.
  - destruct (decide (k ∈ id <$> [])) as [Hin|_]; [|done].
    by apply elem_of_nil in Hin.
  - cbn [foldl]. rewrite IH, lookup_delete, fmap_cons.
    destruct (decide (k ∈ id <$> dels)) as [Hin|Hnin].
    + rewrite decide_True; [done | apply elem_of_cons; by right].
    + destruct (decide (id row = k)) as [->|Hne].
      * rewrite decide_True; [done | apply elem_of_cons; by left].
      * rewrite decide_False; [done|].
        intros [->|?]%elem_of_cons; done.
Qed.

Lemma delete_rows_size dels (t : gmap uuid token_data) :
  NoDup (id <$> dels) →
  (∀ row, row ∈ dels → is_Some (t !! id row)) →
  (size (delete_rows dels t) + length dels = size t)%nat.
Proof.
  unfold delete_rows. revert t.
  induction dels as [|row dels IH]; intros t Hnd Hin.
  - simpl. lia.
  - rewrite fmap_cons in Hnd. apply NoDup_cons in Hnd as [Hrow Hnd].
    cbn [foldl length].
    specialize (IH (delete (id row) t) Hnd).
    destruct (Hin row) as [d Hd]; [apply elem_of_cons; by left|].
    assert (size (delete (id row) t) = pred (size t)) as Hsz
      by (apply map_size_delete_Some; eauto).
    assert (size t ≠ 0%nat) as Hpos.
    { intros Hz%map_size_empty_iff. by rewrite Hz, lookup_empty in Hd. }
    rewrite Hsz in IH. rewrite Nat.add_succ_r, IH; [lia|].
    intros row' Hrow'. rewrite lookup_delete_ne.
    + apply Hin, elem_of_cons. by right.
    + intros Heq. apply Hrow. rewrite Heq.
      apply list_elem_of_fmap. by exists row'.
Qed.

Lemma filter_fmap_rows {A B} (f : A → B) (P : B → Prop)
    `{!∀ y, Decision (P y)} (l : list A) :
  filter P (f <$> l) = f <$> filter (λ x, P (f x)) l.
Proof.
  induction l as [|x l IH]; [done|]. csimpl. rewrite !filter_cons.
  destruct (decide (P (f x))); csimpl; by rewrite IH.
Qed.

Lemma filter_ext_elem {A} (P Q : A → Prop)
    `{!∀ x, Decision (P x), !∀ x, Decision (Q x)} (l : list A) :
  (∀ x, x ∈ l → P x ↔ Q x) → filter P l = filter Q l.
Proof.
  induction l as [|x l IH]; intros Hext; [done|]. rewrite !filter_cons.
  rewrite IH; [|intros y Hy; apply Hext, elem_of_cons; by right].
  destruct (Hext x) as [H1 H2]; [apply elem_of_cons; by left|].
  destruct (decide (P x)), (decide (Q x)); tauto.
Qed.

(** ** The loop over the fetched rows *)

Lemma print_tokens line w w' r :
  print line w = (w', r) → tokens w' = tokens w.
Proof. by intros [= <- _]. Qed.

Lemma delete_token_ok e token w w' :
  delete_token e token w = (w', Ok tt) → tokens w' = delete token (tokens w).
Proof.
  unfold delete_token, session_execute.
  destruct (execute_fails e (DeleteToken token)); [done|]. by intros [= <-].
Qed.

(** A completed scan has deleted exactly the rows whose expiration lies
    strictly before [now], counted each once and tallied each once. *)
Lemma scan_ok e now o rows rd ct w w' rd' ct' :
  tzinfo now = Some o →
  scan e now rows rd ct w = (w', Ok (rd', ct')) →
  tokens w' = delete_rows (filter (past now) rows) (tokens w) ∧
  rd' = rd + Z.of_nat (length (filter (past now) rows)) ∧
  ct' = tally_rows (filter (past now) rows) ct.
Proof.
  intros Hnow. revert rd ct w.
  induction rows as [|row rows IH]; intros rd ct w; cbn [scan].
  - intros [= <- <- <-]. rewrite filter_nil. simpl. split_and!; [done|lia|done].
  - intros (w1 & x & [-> Hx]%lift_ok & Hk)%bind_ok.
    apply bind_ok in Hk as (w2 & b & [-> Hb]%lift_ok & Hk).
    assert (b = bool_decide (past now row)) as ->.
    { apply (expired_ok now o); [done|]. unfold expired. by rewrite Hx. }
    rewrite filter_cons. destruct (decide (past now row)) as [Hp|Hp].
    + rewrite bool_decide_eq_true_2 in Hk by done.
      apply bind_ok in Hk as (w3 & [] & Hprint & Hk).
      apply bind_ok in Hk as (w4 & [] & Hdel & Hk).
      apply IH in Hk as (Ht & Hrd & Hct).
      apply delete_token_ok in Hdel. apply print_tokens in Hprint.
      rewrite Ht, Hdel, Hprint. cbn [length]. split_and!; [done|lia|done].
    + rewrite bool_decide_eq_false_2 in Hk by done. by apply IH in Hk.
Qed.

(** ** The loop over the tally *)

Lemma session_execute_ok {A} e q (answer : M A) w w' a :
  session_execute e q answer w = (w', Ok a) → answer w = (w', Ok a).
Proof.
  unfold session_execute. by destruct (execute_fails e q).
Qed.

Lemma index0_ok {A} (rows : list A) w w' a :
  index0 rows w = (w', Ok a) → w' = w ∧ head rows = Some a.
Proof. destruct rows; [done|]. by intros [= -> ->]. Qed.

Lemma option_list_head {A} (o : option A) a :
  head (option_list o) = Some a → o = Some a.
Proof. by destruct o. Qed.

Lemma abuse_loop_ok e ks items table w w' table' :
  abuse_loop e ks items table w = (w', Ok table') →
  ∃ lines, table' = table ++ lines ∧
           Forall2 (reported (credentials w) (usernames w) ks)
                   (offenders items) lines.
Proof.
  unfold offenders. revert table w.
  induction items as [|[key value] items IH]; intros table w; cbn [abuse_loop].
  - intros [= <- <-]. exists []. by rewrite app_nil_r.
  - rewrite filter_cons. cbn [snd].
    destruct (Z.leb_spec 100 value) as [Hv|Hv].
    + rewrite decide_True by done.
      intros (w1 & creds & [= <- <-]%session_execute_ok & Hk)%bind_ok.
      apply bind_ok in Hk as (w2 & consumer & [-> Hc]%index0_ok & Hk).
      apply bind_ok in Hk
        as (w3 & names & [= <- <-]%session_execute_ok & Hk).
      apply bind_ok in Hk as (w4 & name & [-> Hn]%index0_ok & Hk).
      apply bind_ok in Hk as (w5 & [] & [= <-] & Hk).
      apply IH in Hk as (lines & -> & Hlines).
      eexists (_ :: lines). split; [by rewrite <- app_assoc|].
      constructor; [|done].
      exists consumer, name.
      split_and!; [by apply option_list_head|by apply option_list_head|done].
    + rewrite decide_False by lia. apply IH.
Qed.

(** ** Sending the report *)

Lemma sendEmailAlert_disabled e args body host subj t w :
  mail_enabled args = false →
  sendEmailAlert e args body host subj t w = (w, Ok tt).
Proof.
  unfold mail_enabled, truthy, sendEmailAlert.
  destruct (email args) as [to_addr|]; [|done].
  destruct (smtpserver args) as [relay|]; [|done].
  by intros ->.
Qed.

Lemma sendEmailAlert_outbox e args body host subj t w w' r :
  sendEmailAlert e args body host subj t w = (w', r) →
  ∃ sent, outbox w' = outbox w ++ sent ∧
          (length sent ≤ 1)%nat ∧
          Forall (λ msg, mail_body msg = body) sent ∧
          (mail_enabled args = false → sent = []) ∧
          (r = Ok tt → mail_enabled args = true → length sent = 1%nat).
Proof.
  destruct (mail_enabled args) eqn:Hen.
  - revert Hen. unfold mail_enabled, truthy, sendEmailAlert.
    destruct (email args) as [to_addr|]; [|done].
    destruct (smtpserver args) as [relay|]; [|by rewrite andb_false_r].
    intros ->. unfold bind, sendmail, smtp, bind, raise, ret.
    destruct (smtp_fails e (SmtpConnect relay)).
    { intros [= <- <-]. exists []. rewrite app_nil_r. simpl.
      split_and!; [done|lia|constructor|done|done]. }
    destruct (smtp_fails e SmtpSendmail).
    { intros [= <- <-]. exists []. rewrite app_nil_r. simpl.
      split_and!; [done|lia|constructor|done|done]. }
    destruct (smtp_fails e SmtpQuit); intros [= <- <-];
      eexists [_]; simpl; split_and!; try done; by repeat constructor.
  - rewrite sendEmailAlert_disabled by done. intros [= <- <-].
    exists []. rewrite app_nil_r. simpl.
    split_and!; [done|lia|constructor|done|done].
Qed.

(** ** A completed sweep *)

Lemma cluster_connect_ok e c w w' :
  cluster_connect e c w = (w', Ok tt) →
  db w' = db w ∧ outbox w' = outbox w ∧ stdout w' = stdout w ∧
  cluster_open w' = true ∧ connections w' = connections w ++ [c].
Proof.
  unfold cluster_connect. destruct (connect_fails e c); [done|].
  by intros [= <-].
Qed.

Lemma print_ok line w w' r :
  print line w = (w', r) →
  db w' = db w ∧ outbox w' = outbox w ∧ cluster_open w' = cluster_open w.
Proof. by intros [= <- _]. Qed.

Lemma select_count_ok e w w' n :
  select_count e w = (w', Ok n) →
  w' = w ∧ n = Z.of_nat (size (tokens w)).
Proof.
  unfold select_count. by intros [= <- <-]%session_execute_ok.
Qed.

Lemma select_tokens_ok e w w' rows :
  select_tokens e w = (w', Ok rows) →
  w' = w ∧ rows = row_of <$> map_to_list (tokens w).
Proof.
  unfold select_tokens. by intros [= <- <-]%session_execute_ok.
Qed.

(** The rows the sweep deletes from table [t] at instant [now]. *)
Lemma fetched_rows_NoDup (t : gmap uuid token_data) :
  NoDup (id <$> (row_of <$> map_to_list t)).
Proof.
  rewrite <- list_fmap_compose.
  apply (NoDup_fst_map_to_list t).
Qed.

Lemma fetched_rows_elem (t : gmap uuid token_data) row :
  row ∈ row_of <$> map_to_list t ↔
  ∃ d, t !! id row = Some d ∧ row = row_of (id row, d).
Proof.
  rewrite list_elem_of_fmap. split.
  - intros ([k d] & -> & Hkd%elem_of_map_to_list). by exists d.
  - intros (d & Hd & Hrow). exists (id row, d).
    split; [done | by apply elem_of_map_to_list].
Qed.

(** Everything the function has computed and done when it returns. *)
Lemma deleteExpiredIDs_ok e args casshost ssl_opts host ks user pw w w' l :
  deleteExpiredIDs e args casshost ssl_opts host ks user pw w = (w', Ok l) →
  let now := {| wall := utcnow e; tzinfo := Some utc |} in
  let dels := filter (past now) (row_of <$> map_to_list (tokens w)) in
  current_time l = now ∧
  count_before l = Z.of_nat (size (tokens w)) ∧
  rowsdeleted l = Z.of_nat (length dels) ∧
  consumer_tokens l = tally_rows dels [] ∧
  tokens w' = delete_rows dels (tokens w) ∧
  count_after l = Z.of_nat (size (tokens w')) ∧
  credentials w' = credentials w ∧
  usernames w' = usernames w ∧
  Forall2 (reported (credentials w) (usernames w) ks)
          (offenders (consumer_tokens l)) (consumer_abuse_table l) ∧
  cluster_open w' = false ∧
  ∃ sent, outbox w' = outbox w ++ sent ∧
          length sent = (if mail_enabled args then 1%nat else 0%nat) ∧
          Forall (λ msg, mail_body msg =
                         {| rep_server := casshost; rep_keyspace := ks;
                            rep_rows_deleted := rowsdeleted l;
                            rep_abuse := consumer_abuse_table l |}) sent.
Proof.
  unfold deleteExpiredIDs.
  intros (w1 & [] & Hconn & H)%bind_ok.
  apply bind_ok in H as (w2 & cb & [-> ->]%select_count_ok & H).
  apply bind_ok in H as (w3 & [] & Hp1 & H).
  apply bind_ok in H as (w4 & rows & [-> ->]%select_tokens_ok & H).
  apply bind_ok in H as (w5 & [rd ct] & Hscan & H).
  apply bind_ok in H as (w6 & n_after & [-> ->]%select_count_ok & H).
  apply bind_ok in H as (w7 & [] & Hp2 & H).
  apply bind_ok in H as (w8 & table & Habuse & H).
  apply bind_ok in H as (w9 & [] & Hmail & H).
  apply bind_ok in H as (w10 & [] & [= <-] & [= <- <-]).
  cbn [current_time count_before rowsdeleted consumer_tokens count_after
       consumer_abuse_table fst snd cluster_open outbox] in *.
  apply cluster_connect_ok in Hconn as (Hdb1 & Hbox1 & _ & _ & _).
  apply print_ok in Hp1 as (Hdb3 & Hbox3 & _).
  pose proof (scan_preserves outbox _ _ _ _ _
                ltac:(done) ltac:(done) _ _ _ Hscan) as Hbox5.
  pose proof (scan_preserves credentials _ _ _ _ _
                ltac:(done) ltac:(done) _ _ _ Hscan) as Hcred5.
  pose proof (scan_preserves usernames _ _ _ _ _
                ltac:(done) ltac:(done) _ _ _ Hscan) as Hname5.
  eapply scan_ok in Hscan as (Ht5 & -> & ->); [|done].
  apply print_ok in Hp2 as (Hdb7 & Hbox7 & _).
  pose proof (abuse_loop_preserves db _ _ _ _ ltac:(done) _ _ _ Habuse) as Hdb8.
  pose proof (abuse_loop_preserves outbox _ _ _ _ ltac:(done) _ _ _ Habuse)
    as Hbox8.
  apply abuse_loop_ok in Habuse as (lines & -> & Hlines).
  pose proof (sendEmailAlert_preserves db _ _ _ _ _ _ ltac:(done) _ _ _ Hmail)
    as Hdb9.
  apply sendEmailAlert_outbox in Hmail
    as (sent & Hsent & Hle & Hbody & Hoff & Hon).
  unfold same, tokens, credentials, usernames in *.
  rewrite Hdb3, Hdb1 in Ht5, Hcred5, Hname5.
  rewrite Hdb9, Hdb8, Hdb7.
  rewrite Hdb7, Hcred5, Hname5 in Hlines.
  rewrite Hdb3, Hdb1 in *.
  split_and!; try done.
  exists sent. split_and!; [congruence| |done].
  destruct (mail_enabled args); [by apply Hon | by rewrite Hoff].
Qed.

(** ** Which rows go *)

Lemma past_row_of now k d :
  past now (row_of (k, d)) ↔ expiry_instant d < instant now.
Proof. done. Qed.

Lemma deleted_ids now (t : gmap uuid token_data) k d :
  t !! k = Some d →
  k ∈ id <$> filter (past now) (row_of <$> map_to_list t) ↔
  expiry_instant d < instant now.
Proof.
  intros Hd. rewrite list_elem_of_fmap. split.
  - intros (row & -> & [Hp Hrow]%list_elem_of_filter).
    apply fetched_rows_elem in Hrow as (d' & Hd' & Hrow).
    rewrite Hd in Hd'. injection Hd' as <-.
    rewrite Hrow in Hp. by apply past_row_of in Hp.
  - intros Hp. exists (row_of (k, d)). split; [done|].
    apply list_elem_of_filter. split; [by apply past_row_of|].
    apply fetched_rows_elem. by exists d.
Qed.

Lemma deleted_rows_NoDup now (t : gmap uuid token_data) :
  NoDup (id <$> filter (past now) (row_of <$> map_to_list t)).
Proof.
  eapply sublist_NoDup; [apply (fetched_rows_NoDup t)|].
  apply fmap_sublist, sublist_filter.
Qed.

Lemma deleted_rows_present now (t : gmap uuid token_data) row :
  row ∈ filter (past now) (row_of <$> map_to_list t) → is_Some (t !! id row).
Proof.
  intros [_ (d & Hd & _)%fetched_rows_elem]%list_elem_of_filter. eauto.
Qed.

(** The rows missing afterwards are the rows the loop deleted. *)
Lemma deleted_tokens_rows now before after :
  oauth2_tokens after =
    delete_rows (filter (past now)
                   (row_of <$> map_to_list (oauth2_tokens before)))
                (oauth2_tokens before) →
  row_of <$> deleted_tokens before after =
  filter (past now) (row_of <$> map_to_list (oauth2_tokens before)).
Proof.
  intros Hafter. unfold deleted_tokens. rewrite filter_fmap_rows. f_equal.
  apply filter_ext_elem. intros [k d] Hkd%elem_of_map_to_list. cbn [fst].
  rewrite Hafter, delete_rows_lookup, past_row_of.
  rewrite <- (deleted_ids now _ k d Hkd).
  destruct (decide (k ∈ _)) as [Hin|Hnin]; [done|].
  rewrite Hkd. split; [done | by intros ?].
Qed.

Lemma deleted_for_rows c now before after :
  oauth2_tokens after =
    delete_rows (filter (past now)
                   (row_of <$> map_to_list (oauth2_tokens before)))
                (oauth2_tokens before) →
  deleted_for c before after =
  rows_of_credential c
    (filter (past now) (row_of <$> map_to_list (oauth2_tokens before))).
Proof.
  intros Hafter. unfold deleted_for, rows_of_credential.
  rewrite <- (deleted_tokens_rows now before after Hafter).
  by rewrite filter_fmap_rows, length_fmap.
Qed.
(** ** The entries of the tally that reach the threshold *)

Lemma offenders_keys_NoDup ct :
  NoDup (pydict.keys ct) → NoDup (offenders ct).*1.
Proof.
  intros Hnd. eapply sublist_NoDup; [exact Hnd|].
  apply fmap_sublist, sublist_filter.
Qed.

Lemma offenders_keys ct c :
  NoDup (pydict.keys ct) →
  c ∈ (offenders ct).*1 ↔ ∃ n, pydict.get c ct = Some n ∧ 100 ≤ n.
Proof.
  intros Hnd. unfold offenders. rewrite list_elem_of_fmap. split.
  - intros ([k n] & -> & [Hn Hin]%list_elem_of_filter).
    exists n. split; [by apply elem_get_Some | done].
  - intros (n & Hin%get_Some_elem & Hn). exists (c, n).
    split; [done|]. by apply list_elem_of_filter.
Qed.

(** ** Runs that may abort *)

Lemma preserves_bind_after {X} (f : world → X) (R : world → world → Prop)
    {A B} (m : M A) (k : A → M B) :
  (∀ w1 w2, same f w1 w2 → R w1 w2) →
  (∀ w1 w2 w3, same f w1 w2 → R w2 w3 → R w1 w3) →
  preserves (same f) m → (∀ a, preserves R (k a)) → preserves R (bind m k).
Proof.
  intros Hweak Hcomp Hm Hk w w' r. unfold bind.
  destruct (m w) as [w1 [a|x]] eqn:E.
  - intros Hka. eapply Hcomp; [by eapply Hm | by eapply Hk].
  - intros [= <- _]. eapply Hweak. by eapply Hm.
Qed.

Lemma preserves_bind_before {X} (f : world → X) (R : world → world → Prop)
    {A B} (m : M A) (k : A → M B) :
  (∀ w1 w2 w3, R w1 w2 → same f w2 w3 → R w1 w3) →
  preserves R m → (∀ a, preserves (same f) (k a)) → preserves R (bind m k).
Proof.
  intros Hcomp Hm Hk w w' r. unfold bind.
  destruct (m w) as [w1 [a|x]] eqn:E.
  - intros Hka. eapply Hcomp; [by eapply Hm | by eapply Hk].
  - intros [= <- _]. by eapply Hm.
Qed.

Lemma cluster_connect_preserves {X} (f : world → X) e c :
  (∀ w conns o, f {| db := db w; connections := conns; cluster_open := o;
                     stdout := stdout w; outbox := outbox w |} = f w) →
  preserves (same f) (cluster_connect e c).
Proof.
  intros Hf w w' r. unfold cluster_connect.
  destruct (connect_fails e c); intros [= <- _]; apply Hf.
Qed.

Lemma cluster_shutdown_preserves {X} (f : world → X) :
  (∀ w conns o, f {| db := db w; connections := conns; cluster_open := o;
                     stdout := stdout w; outbox := outbox w |} = f w) →
  preserves (same f) cluster_shutdown.
Proof. intros Hf w w' r [= <- _]. apply Hf. Qed.

Lemma mailed_same args w1 w2 : same outbox w1 w2 → mailed args w1 w2.
Proof.
  intros H. exists []. rewrite app_nil_r. simpl. split_and!; [done|lia|done].
Qed.

Lemma mailed_after_same args w1 w2 w3 :
  same outbox w1 w2 → mailed args w2 w3 → mailed args w1 w3.
Proof.
  intros H12 (sent & H23 & Hrest). exists sent. split; [|done].
  unfold same in H12. congruence.
Qed.

Lemma mailed_before_same args w1 w2 w3 :
  mailed args w1 w2 → same outbox w2 w3 → mailed args w1 w3.
Proof.
  intros (sent & H12 & Hrest) H23. exists sent. split; [|done].
  unfold same in H23. congruence.
Qed.

Lemma deleteExpiredIDs_mailed e args casshost ssl_opts host ks user pw :
  preserves (mailed args)
    (deleteExpiredIDs e args casshost ssl_opts host ks user pw).
Proof.
  unfold deleteExpiredIDs.
  apply (preserves_bind_after outbox);
    [apply mailed_same|apply mailed_after_same
    |by apply cluster_connect_preserves|intros _].
  apply (preserves_bind_after outbox);
    [apply mailed_same|apply mailed_after_same
    |apply select_count_preserves|intros cb].
  apply (preserves_bind_after outbox);
    [apply mailed_same|apply mailed_after_same
    |by apply print_preserves|intros _].
  apply (preserves_bind_after outbox);
    [apply mailed_same|apply mailed_after_same
    |apply select_tokens_preserves|intros rows].
  apply (preserves_bind_after outbox);
    [apply mailed_same|apply mailed_after_same
    |by apply scan_preserves|intros counters].
  apply (preserves_bind_after outbox);
    [apply mailed_same|apply mailed_after_same
    |apply select_count_preserves|intros n_after].
  apply (preserves_bind_after outbox);
    [apply mailed_same|apply mailed_after_same
    |by apply print_preserves|intros _].
  apply (preserves_bind_after outbox);
    [apply mailed_same|apply mailed_after_same
    |by apply abuse_loop_preserves|intros table].
  apply (preserves_bind_before outbox); [apply mailed_before_same| |intros _].
  - intros w w' r (sent & ? & ? & _ & ? & _)%sendEmailAlert_outbox.
    by exists sent.
  - apply preserves_bind; [apply _| |intros _; apply preserves_ret, _].
    by apply cluster_shutdown_preserves.
Qed.

(** A run without mail does everything else a completed run did. *)
Lemma deleteExpiredIDs_mail_off
    e args args' casshost ssl_opts host ks user pw w w' l :
  deleteExpiredIDs e args casshost ssl_opts host ks user pw w = (w', Ok l) →
  mail_enabled args' = false →
  ∃ w2, deleteExpiredIDs e args' casshost ssl_opts host ks user pw w
        = (w2, Ok l) ∧
        db w2 = db w' ∧ stdout w2 = stdout w' ∧
        connections w2 = connections w' ∧
        outbox w2 = outbox w ∧ cluster_open w2 = false.
Proof.
  intros Hrun Hoff.
  assert (∃ w2, deleteExpiredIDs e args' casshost ssl_opts host ks user pw w
                = (w2, Ok l) ∧
                db w2 = db w' ∧ stdout w2 = stdout w' ∧
                connections w2 = connections w' ∧ cluster_open w2 = false)
    as (w2 & Hrun' & Hrest).
  { revert Hrun. unfold deleteExpiredIDs.
    intros (w1 & [] & Hconn & H)%bind_ok.
    apply bind_ok in H as (w2 & cb & Hcb & H).
    apply bind_ok in H as (w3 & [] & Hp1 & H).
    apply bind_ok in H as (w4 & rows & Hrows & H).
    apply bind_ok in H as (w5 & counters & Hscan & H).
    apply bind_ok in H as (w6 & n_after & Hca & H).
    apply bind_ok in H as (w7 & [] & Hp2 & H).
    apply bind_ok in H as (w8 & table & Habuse & H).
    apply bind_ok in H as (w9 & [] & Hmail & H).
    apply bind_ok in H as (w10 & [] & [= <-] & [= <- <-]).
    eexists. split.
    - rewrite (bind_step _ _ _ _ _ Hconn), (bind_step _ _ _ _ _ Hcb),
        (bind_step _ _ _ _ _ Hp1), (bind_step _ _ _ _ _ Hrows),
        (bind_step _ _ _ _ _ Hscan), (bind_step _ _ _ _ _ Hca),
        (bind_step _ _ _ _ _ Hp2), (bind_step _ _ _ _ _ Habuse).
      rewrite (bind_step _ _ _ _ _
                 (sendEmailAlert_disabled _ _ _ _ _ _ _ Hoff)).
      reflexivity.
    - cbn [db stdout connections cluster_open].
      pose proof (sendEmailAlert_preserves db _ _ _ _ _ _
                    ltac:(done) _ _ _ Hmail).
      pose proof (sendEmailAlert_preserves stdout _ _ _ _ _ _
                    ltac:(done) _ _ _ Hmail).
      pose proof (sendEmailAlert_preserves connections _ _ _ _ _ _
                    ltac:(done) _ _ _ Hmail).
      by split_and!. }
  exists w2. destruct Hrest as (? & ? & ? & ?). split_and!; try done.
  apply deleteExpiredIDs_mailed in Hrun' as (sent & Hsent & _ & Hnone).
  by rewrite Hsent, (Hnone Hoff), app_nil_r.
Qed.

Lemma bind_raised {X} (f : world → X) {A B} (m : M A) (k : A → M B) w w' x :
  preserves (same f) m →
  (∀ a w1, k a w1 = (w', Raise x) → f w' = f w1) →
  bind m k w = (w', Raise x) → f w' = f w.
Proof.
  intros Hm Hk. unfold bind. destruct (m w) as [w1 [a|y]] eqn:E.
  - intros Hka. rewrite (Hk _ _ Hka). by eapply Hm.
  - intros [= <- _]. by eapply Hm.
Qed.

(** A run that raises after the connection was made never reaches
    [cluster.shutdown()]. *)
Lemma deleteExpiredIDs_raised e args casshost ssl_opts host ks user pw w w' x :
  deleteExpiredIDs e args casshost ssl_opts host ks user pw w
  = (w', Raise x) →
  connect_fails e {| conn_host := host; conn_keyspace := ks;
                     conn_user := user; conn_password := pw;
                     conn_ca_certs := ssl_opts |} = false →
  cluster_open w' = true.
Proof.
  unfold deleteExpiredIDs. intros Hrun Hconn.
  unfold bind at 1, cluster_connect at 1 in Hrun. rewrite Hconn in Hrun.
  set (w1 := {| db := db w; cluster_open := true |}) in Hrun.
  change (cluster_open w' = cluster_open w1). clearbody w1. revert Hrun.
  apply bind_raised; [apply select_count_preserves|intros cb w2].
  apply bind_raised; [by apply print_preserves|intros _ w3].
  apply bind_raised; [apply select_tokens_preserves|intros rows w4].
  apply bind_raised; [by apply scan_preserves|intros counters w5].
  apply bind_raised; [apply select_count_preserves|intros n_after w6].
  apply bind_raised; [by apply print_preserves|intros _ w7].
  apply bind_raised; [by apply abuse_loop_preserves|intros table w8].
  apply bind_raised; [by apply sendEmailAlert_preserves|intros _ w9].
  done.
Qed.

(** ** No unexpired token is ever deleted, however the run ends *)

#[local] Instance only_expired_gone_preorder now :
  PreOrder (only_expired_gone now).
Proof.
  split.
  - intros w. split; [done|]. intros k d Hd Hnone. congruence.
  - intros w1 w2 w3 [Hsub12 H12] [Hsub23 H23]. split; [by etrans|].
    intros k d Hd Hnone.
    destruct (tokens w2 !! k) as [d'|] eqn:Hd2; [|by eapply H12].
    eapply H23; [|done].
    pose proof (lookup_weaken _ _ _ _ Hd2 Hsub12). congruence.
Qed.

Lemma only_expired_gone_same now w w' :
  same tokens w w' → only_expired_gone now w w'.
Proof. unfold same. intros H. split; rewrite H; [done|congruence]. Qed.

Lemma preserves_only_expired_gone now {A} (m : M A) :
  preserves (same tokens) m → preserves (only_expired_gone now) m.
Proof. intros Hm w w' r Hrun. eapply only_expired_gone_same, Hm, Hrun. Qed.

Lemma delete_token_expired e now o row w w' r :
  tzinfo now = Some o →
  rows_current [row] w →
  expired now row = Ok true →
  delete_token e (id row) w = (w', r) →
  only_expired_gone now w w'.
Proof.
  intros Hnow Hcur Hexp. unfold delete_token, session_execute.
  destruct (execute_fails e _); [by intros [= <- _]|]. intros [= <- _].
  split; unfold tokens; cbn [db oauth2_tokens]; [apply delete_subseteq|].
  intros k d Hd [Hk|Hk]%lookup_delete_None; [|unfold tokens in Hd; congruence].
  subst k. apply (expired_ok now o) in Hexp; [|done].
  symmetry in Hexp. apply bool_decide_eq_true_1 in Hexp.
  rewrite (Hcur row d) in Hexp; [done| by apply list_elem_of_singleton|done].
Qed.

Lemma rows_current_weaken rows row w w' :
  rows_current (row :: rows) w → tokens w' ⊆ tokens w →
  rows_current rows w'.
Proof.
  intros Hcur Hsub row' d Hin Hd. apply Hcur; [by apply elem_of_cons; right|].
  by eapply lookup_weaken.
Qed.

Lemma scan_only_expired_gone e now o rows rd ct w w' r :
  tzinfo now = Some o →
  rows_current rows w →
  scan e now rows rd ct w = (w', r) →
  only_expired_gone now w w'.
Proof.
  intros Hnow. revert rd ct w.
  induction rows as [|row rows IH]; intros rd ct w Hcur; cbn [scan].
  - intros [= <- _]. reflexivity.
  - unfold bind at 1, lift at 1.
    destruct (expiration_time_of row) as [x|] eqn:Hx;
      [|intros [= <- _]; reflexivity].
    unfold bind at 1, lift at 1.
    destruct (gt now x) as [[|]|] eqn:Hgt; [| |intros [= <- _]; reflexivity].
    + unfold bind at 1, print at 1.
      set (w1 := {| db := db w; outbox := outbox w |}).
      assert (tokens w1 = tokens w) as Hw1 by done.
      assert (rows_current (row :: rows) w1) as Hcur1.
      { intros row' d. rewrite Hw1. apply Hcur. }
      intros Hk. etrans; [by apply (only_expired_gone_same now w w1)|].
      revert Hk. clearbody w1. clear Hw1 Hcur w. unfold bind at 1.
      destruct (delete_token e (id row) w1) as [w2 [[]|y]] eqn:Hdel.
      * assert (only_expired_gone now w1 w2) as H12.
        { eapply (delete_token_expired e now o row); [done| | |done].
          - intros row' d ->%list_elem_of_singleton.
            apply Hcur1, elem_of_cons. by left.
          - unfold expired. by rewrite Hx. }
        intros Hk. etrans; [exact H12|].
        eapply IH; [|exact Hk].
        eapply rows_current_weaken; [exact Hcur1 | apply H12].
      * intros [= <- _].
        eapply (delete_token_expired e now o row); [done| | |done].
        -- intros row' d ->%list_elem_of_singleton.
           apply Hcur1, elem_of_cons. by left.
        -- unfold expired. by rewrite Hx.
    + apply IH. intros row' d Hin. apply Hcur, elem_of_cons. by right.
Qed.

Lemma fetched_rows_current w :
  rows_current (row_of <$> map_to_list (tokens w)) w.
Proof.
  intros row d (d' & Hd' & Hrow)%fetched_rows_elem Hd. congruence.
Qed.

Lemma deleteExpiredIDs_only_expired_gone
    e args casshost ssl_opts host ks user pw :
  preserves (only_expired_gone {| wall := utcnow e; tzinfo := Some utc |})
    (deleteExpiredIDs e args casshost ssl_opts host ks user pw).
Proof.
  unfold deleteExpiredIDs.
  apply preserves_bind; [apply _| |intros _].
  { by apply preserves_only_expired_gone, cluster_connect_preserves. }
  apply preserves_bind; [apply _| |intros cb].
  { apply preserves_only_expired_gone, select_count_preserves. }
  apply preserves_bind; [apply _| |intros _].
  { by apply preserves_only_expired_gone, print_preserves. }
  intros w w' r. unfold bind at 1.
  destruct (select_tokens e w) as [w1 [rows|x]] eqn:Hrows.
  - apply select_tokens_ok in Hrows as [-> ->]. unfold bind at 1.
    destruct (scan _ _ _ _ _ w) as [w2 [counters|x]] eqn:Hscan.
    + intros Hk. etrans.
      { eapply scan_only_expired_gone;
          [done|apply fetched_rows_current|exact Hscan]. }
      revert Hk. generalize w2 w' r.
      apply (preserves_bind _ (select_count e)); [|intros n_after].
      { apply preserves_only_expired_gone, select_count_preserves. }
      apply preserves_bind; [apply _| |intros _].
      { by apply preserves_only_expired_gone, print_preserves. }
      apply preserves_bind; [apply _| |intros table].
      { by apply preserves_only_expired_gone, abuse_loop_preserves. }
      apply preserves_bind; [apply _| |intros _].
      { by apply preserves_only_expired_gone, sendEmailAlert_preserves. }
      apply preserves_bind; [apply _| |intros _; apply preserves_ret, _].
      by apply preserves_only_expired_gone, cluster_shutdown_preserves.
    + intros [= <- _].
      eapply scan_only_expired_gone;
        [done|apply fetched_rows_current|exact Hscan].
  - intros [= <- _].
    eapply only_expired_gone_same, select_tokens_preserves, Hrows.
Qed.

(** ** The scenarios of the specification *)

Example expired_one_second_ago :
  expired (example.aware (example.T + 3601 * US_PER_SECOND) utc)
    (row_of (1%N, example.token 10 3600 (example.naive example.T)))
  = Ok true.
Proof. reflexivity. Qed.

Example expires_in_one_second :
  expired (example.aware (example.T + 3599 * US_PER_SECOND) utc)
    (row_of (1%N, example.token 10 3600 (example.naive example.T)))
  = Ok false.
Proof. reflexivity. Qed.

Example expires_right_now :
  expired (example.aware (example.T + 3600 * US_PER_SECOND) utc)
    (row_of (1%N, example.token 10 3600 (example.naive example.T)))
  = Ok false.
Proof. reflexivity. Qed.

Example naive_against_aware_raises :
  gt (example.aware example.T utc) (example.naive example.T)
  = Raise TypeError.
Proof. reflexivity. Qed.

Example abuse_scenario :
  ∃ l, (example.sweep example.env_ok example.args_mail None
          (fresh example.db_abuse)).2 = Ok l ∧
       pydict.get 10%N (consumer_tokens l) = Some 150 ∧
       pydict.get 20%N (consumer_tokens l) = Some 40 ∧
       consumer_abuse_table l =
         [{| al_keyspace := "kong_dev"; al_consumer_id := 100%N;
             al_consumer_name := "alice"; al_tokens_created := 150 |}].
Proof. eexists. vm_compute. done. Qed.

(** ** The message that is sent *)

(** The state in which a returning run calls [sendEmailAlert], and the
    call it makes. *)
Lemma deleteExpiredIDs_mail_step
    e args casshost ssl_opts host ks user pw w w' l :
  deleteExpiredIDs e args casshost ssl_opts host ks user pw w = (w', Ok l) →
  ∃ w8 w9,
    outbox w8 = outbox w ∧
    sendEmailAlert e args
      {| rep_server := casshost; rep_keyspace := ks;
         rep_rows_deleted := rowsdeleted l;
         rep_abuse := consumer_abuse_table l |}
      casshost "OAuth Token Cleanup" (current_time l) w8 = (w9, Ok tt) ∧
    outbox w' = outbox w9.
Proof.
  unfold deleteExpiredIDs.
  intros (w1 & [] & Hconn & H)%bind_ok.
  apply bind_ok in H as (w2 & cb & [-> ->]%select_count_ok & H).
  apply bind_ok in H as (w3 & [] & Hp1 & H).
  apply bind_ok in H as (w4 & rows & [-> ->]%select_tokens_ok & H).
  apply bind_ok in H as (w5 & [rd ct] & Hscan & H).
  apply bind_ok in H as (w6 & n_after & [-> ->]%select_count_ok & H).
  apply bind_ok in H as (w7 & [] & Hp2 & H).
  apply bind_ok in H as (w8 & table & Habuse & H).
  apply bind_ok in H as (w9 & [] & Hmail & H).
  apply bind_ok in H as (w10 & [] & [= <-] & [= <- <-]).
  cbn [current_time rowsdeleted consumer_abuse_table fst snd outbox] in *.
  exists w8, w9. split_and!; [|exact Hmail|done].
  apply cluster_connect_ok in Hconn as (_ & Hbox1 & _).
  apply print_ok in Hp1 as (_ & Hbox3 & _).
  apply (scan_preserves outbox) in Hscan; [|done|done].
  apply print_ok in Hp2 as (_ & Hbox7 & _).
  apply (abuse_loop_preserves outbox) in Habuse; [|done].
  unfold same in *. congruence.
Qed.

Lemma sendEmailAlert_sent e args body dbhost subject t w w' to_addr relay :
  email args = Some to_addr → smtpserver args = Some relay →
  mail_enabled args = true →
  sendEmailAlert e args body dbhost subject t w = (w', Ok tt) →
  outbox w' =
  outbox w ++
    [{| mail_relay := relay;
        mail_from := match sender args with
                     | Some s => if nonempty s then s
                                 else dbhost +:+ " OAuth Token Cleanup Script"
                     | None => dbhost +:+ " OAuth Token Cleanup Script"
                     end;
        mail_to := [to_addr];
        mail_subject := (dbhost, subject, t);
        mail_body := body |}].
Proof.
  intros Hto Hrelay. unfold mail_enabled, sendEmailAlert.
  rewrite Hto, Hrelay. cbn [truthy]. intros ->.
  unfold bind, sendmail, smtp, bind, raise, ret.
  destruct (smtp_fails e (SmtpConnect relay)); [done|].
  destruct (smtp_fails e SmtpSendmail); [done|].
  destruct (smtp_fails e SmtpQuit); [done|]. by intros [= <-].
Qed.

(** * The properties C1 to C10 of the specification *)

(** C1.  However a run of [deleteExpiredIDs] ends, a token is gone
    afterwards only if its expiration, [created_at + expires_in] seconds
    with a naive [created_at] read as UTC, lies strictly before the one
    instant read from the clock at the start; a token whose expiration is
    that instant itself or later is still there, unchanged.  When the
    run returns, [current_time] is that instant and a token of the table
    it started from is gone if and only if [current_time] lies strictly
    after its expiration. *)
Theorem deleted_iff_strictly_expired
    e args casshost ssl_opts host ks user pw w w' r :
  deleteExpiredIDs e args casshost ssl_opts host ks user pw w = (w', r) →
  let now := {| wall := utcnow e; tzinfo := Some utc |} in
  (∀ token d, tokens w !! token = Some d →
     (tokens w' !! token = None → expiry_instant d < instant now) ∧
     (instant now ≤ expiry_instant d → tokens w' !! token = Some d)) ∧
  ∀ l, r = Ok l →
    current_time l = now ∧
    ∀ token d, tokens w !! token = Some d →
      (tokens w' !! token = None ↔ expiry_instant d < instant now).
Proof.
  intros Hrun now. split.
  - apply deleteExpiredIDs_only_expired_gone in Hrun as [Hsub Hgone].
    intros token d Hd. split; [by apply Hgone|]. intros Hle.
    destruct (tokens w' !! token) as [d'|] eqn:Hd'.
    + pose proof (lookup_weaken _ _ _ _ Hd' Hsub). congruence.
    + specialize (Hgone token d Hd Hd'). fold now in Hgone. lia.
  - intros l ->.
    apply deleteExpiredIDs_ok in Hrun as (Hnow & _ & _ & _ & Ht & _).
    split; [done|]. intros token d Hd.
    rewrite Ht, delete_rows_lookup.
    pose proof (deleted_ids now (tokens w) token d Hd) as Hiff.
    destruct (decide (token ∈ _)) as [Hin|Hnin].
    + by apply Hiff in Hin.
    + rewrite Hd. split; [done|]. by intros ?%Hiff.
Qed.

Lemma deleted_iff_strictly_expired_witness :
  tokens (example.sweep example.env_ok example.args_mail None
            (fresh example.db_small)).1 !! 4%N
  = Some (example.token 20 3601 (example.naive example.T)) ∧
  tokens (example.sweep example.env_ok example.args_mail None
            (fresh example.db_small)).1 !! 1%N = None.
Proof.
  destruct (example.sweep example.env_ok example.args_mail None
              (fresh example.db_small)) as [w' r] eqn:Hrun.
  unfold example.sweep in Hrun.
  destruct (deleted_iff_strictly_expired _ _ _ _ _ _ _ _ _ _ _ Hrun)
    as [Hany Hok].
  assert (∃ l, r = Ok l) as [l Hl].
  { revert Hrun. vm_compute. intros [= _ <-]. by eexists. }
  split.
  - apply (Hany 4%N); [reflexivity|]. vm_compute. discriminate.
  - destruct (Hok l Hl) as [_ Hiff].
    apply (Hiff 1%N (example.token 10 3600 (example.naive example.T)));
      reflexivity.
Defined.

(** C2.  When [deleteExpiredIDs] returns (nothing but the script writes
    to the table: the world has no other writer), the count taken after
    the scan is the count taken before it minus [rowsdeleted]; the two
    counts are the sizes of the table before and after the run, and
    [rowsdeleted] is the number of tokens that are gone. *)
Theorem count_after_is_count_before_minus_rowsdeleted
    e args casshost ssl_opts host ks user pw w w' l :
  deleteExpiredIDs e args casshost ssl_opts host ks user pw w = (w', Ok l) →
  count_after l = count_before l - rowsdeleted l ∧
  count_before l = Z.of_nat (size (tokens w)) ∧
  count_after l = Z.of_nat (size (tokens w')) ∧
  rowsdeleted l = Z.of_nat (length (deleted_tokens (db w) (db w'))).
Proof.
  intros (_ & Hb & Hrd & _ & Ht & Ha & _)%deleteExpiredIDs_ok.
  set (now := {| wall := utcnow e; tzinfo := Some utc |}) in *.
  pose proof (delete_rows_size _ (tokens w)
                (deleted_rows_NoDup now (tokens w))
                (deleted_rows_present now (tokens w))) as Hsize.
  rewrite <- Ht in Hsize.
  pose proof (deleted_tokens_rows now (db w) (db w') Ht) as Hdel.
  apply (f_equal length) in Hdel. rewrite length_fmap in Hdel.
  split_and!; [lia|done|done|]. rewrite Hrd. unfold tokens. by rewrite Hdel.
Qed.

Lemma count_after_is_count_before_minus_rowsdeleted_witness :
  ∃ l, snd (example.sweep example.env_ok example.args_mail None
              (fresh example.db_small)) = Ok l ∧
       count_before l = 4 ∧ rowsdeleted l = 2 ∧
       count_after l = count_before l - rowsdeleted l.
Proof.
  assert (∃ l, example.sweep example.env_ok example.args_mail None
                 (fresh example.db_small)
               = ((example.sweep example.env_ok example.args_mail None
                     (fresh example.db_small)).1, Ok l)) as [l Hl].
  { eexists. vm_compute. reflexivity. }
  exists l. split; [by rewrite Hl|].
  unfold example.sweep in Hl.
  destruct (count_after_is_count_before_minus_rowsdeleted
              _ _ _ _ _ _ _ _ _ _ _ Hl) as (Hcount & Hb & _ & Hrd).
  split_and!; [by rewrite Hb | by rewrite Hrd | done].
Defined.

(** C3.  When [deleteExpiredIDs] returns, the tally [consumer_tokens]
    maps a credential to the number of its tokens deleted in the run when
    that number is at least one, and has no entry for a credential none
    of whose tokens were deleted. *)
Theorem tally_counts_deleted_tokens
    e args casshost ssl_opts host ks user pw w w' l :
  deleteExpiredIDs e args casshost ssl_opts host ks user pw w = (w', Ok l) →
  ∀ credential,
    pydict.get credential (consumer_tokens l) =
    if decide (deleted_for credential (db w) (db w') = 0) then None
    else Some (deleted_for credential (db w) (db w')).
Proof.
  intros (_ & _ & _ & Hct & Ht & _)%deleteExpiredIDs_ok credential.
  rewrite (deleted_for_rows credential _ _ _ Ht), Hct, get_tally_rows.
  destruct (decide _); [done|]. simpl. by f_equal.
Qed.

Lemma tally_counts_deleted_tokens_witness :
  ∃ l, snd (example.sweep example.env_ok example.args_mail None
              (fresh example.db_small)) = Ok l ∧
       pydict.get 10%N (consumer_tokens l) = Some 1 ∧
       pydict.get 30%N (consumer_tokens l) = None.
Proof.
  assert (∃ l, example.sweep example.env_ok example.args_mail None
                 (fresh example.db_small)
               = ((example.sweep example.env_ok example.args_mail None
                     (fresh example.db_small)).1, Ok l)) as [l Hl].
  { eexists. vm_compute. reflexivity. }
  exists l. split; [by rewrite Hl|].
  unfold example.sweep in Hl.
  pose proof (tally_counts_deleted_tokens _ _ _ _ _ _ _ _ _ _ _ Hl) as Htally.
  split; [exact (Htally 10%N) | exact (Htally 30%N)].
Defined.

(** C4.  When [deleteExpiredIDs] returns, the abuse report has one line
    for each entry of the tally whose count is at least 100, in the order
    of the tally, and no other line: a credential is among the reported
    entries exactly when its tally is at least 100, no credential is
    among them twice, and the line of an entry carries the keyspace, the
    consumer id stored for the credential, the username stored for that
    consumer and the tally as the tokens-created count.  This report is
    the one in the body of a message that was sent. *)
Theorem abuse_report_lists_tallies_from_100
    e args casshost ssl_opts host ks user pw w w' l :
  deleteExpiredIDs e args casshost ssl_opts host ks user pw w = (w', Ok l) →
  (∀ credential,
     credential ∈ (offenders (consumer_tokens l)).*1 ↔
     ∃ n, pydict.get credential (consumer_tokens l) = Some n ∧ 100 ≤ n) ∧
  NoDup (offenders (consumer_tokens l)).*1 ∧
  Forall2 (reported (credentials w) (usernames w) ks)
          (offenders (consumer_tokens l)) (consumer_abuse_table l) ∧
  ∃ sent, outbox w' = outbox w ++ sent ∧
          Forall (λ msg, rep_abuse (mail_body msg) = consumer_abuse_table l)
                 sent.
Proof.
  intros (_ & _ & _ & Hct & _ & _ & _ & _ & Hrep & _ & sent & Hsent & _ & Hbody)
    %deleteExpiredIDs_ok.
  assert (NoDup (pydict.keys (consumer_tokens l))) as Hnd.
  { rewrite Hct. apply NoDup_keys_tally_rows. constructor. }
  split_and!.
  - intros credential. by apply offenders_keys.
  - by apply offenders_keys_NoDup.
  - done.
  - exists sent. split; [done|].
    eapply Forall_impl; [exact Hbody|]. by intros msg ->.
Qed.

Lemma abuse_report_lists_tallies_from_100_witness :
  ∃ l, snd (example.sweep example.env_ok example.args_mail None
              (fresh example.db_abuse)) = Ok l ∧
       (offenders (consumer_tokens l)).*1 = [10%N] ∧
       Forall2 (reported example.directory_credentials
                         example.directory_consumers "kong_dev")
               (offenders (consumer_tokens l)) (consumer_abuse_table l).
Proof.
  assert (∃ l, example.sweep example.env_ok example.args_mail None
                 (fresh example.db_abuse)
               = ((example.sweep example.env_ok example.args_mail None
                     (fresh example.db_abuse)).1, Ok l)) as [l Hl].
  { eexists. vm_compute. reflexivity. }
  exists l. split; [by rewrite Hl|].
  unfold example.sweep in Hl.
  destruct (abuse_report_lists_tallies_from_100 _ _ _ _ _ _ _ _ _ _ _ Hl)
    as (_ & _ & Hrep & _).
  split; [|exact Hrep].
  revert Hl. vm_compute. by intros [= <-].
Defined.

(** C5.  A row whose [created_at] is naive and the row with the same
    wall-clock [created_at] carrying UTC get the same expiration time and
    the same answer (or the same error) from the expiration test, for
    every [now], timestamp and ttl, and the scan does the same with
    either row; against an aware [now] the answer says whether the
    timestamp, read as a UTC instant, plus the ttl lies strictly before
    [now]. *)
Theorem naive_created_at_is_read_as_utc now token credential ttl us :
  let row tz := {| id := token; credential_id := credential;
                   expires_in := ttl;
                   created_at := {| wall := us; tzinfo := tz |} |} in
  expired now (row None) = expired now (row (Some utc)) ∧
  expiration_time_of (row None) = expiration_time_of (row (Some utc)) ∧
  (∀ e rows rd ct,
     scan e now (row None :: rows) rd ct
     = scan e now (row (Some utc) :: rows) rd ct) ∧
  (∀ o b, tzinfo now = Some o → expired now (row None) = Ok b →
          b = bool_decide (us + ttl * US_PER_SECOND < instant now)).
Proof.
  intros row. split_and!; [done|done|done|].
  intros o b Hnow Hb. apply (expired_ok now o) in Hb; [|done].
  rewrite Hb. apply bool_decide_ext. subst row.
  unfold instant at 1. cbn [created_at expires_in wall tzinfo default].
  unfold utc. lia.
Qed.

(** C6.  Whatever the outcome of a run, it hands at most one message to
    the relay, and none when the recipient or the relay is unset (or
    empty).  When the run returns, a message was sent if and only if
    both are set; and with either unset the run returns all the same,
    with the same local results, the same database, the same console
    output and the cluster released, having sent nothing. *)
Theorem mail_sent_iff_recipient_and_relay
    e args casshost ssl_opts host ks user pw w w' r :
  deleteExpiredIDs e args casshost ssl_opts host ks user pw w = (w', r) →
  ∃ sent,
    outbox w' = outbox w ++ sent ∧
    (length sent ≤ 1)%nat ∧
    (email args = None ∨ smtpserver args = None → sent = []) ∧
    (mail_enabled args = false →
       sent = [] ∧
       ∀ body dbhost subject t w0,
         sendEmailAlert e args body dbhost subject t w0 = (w0, Ok tt)) ∧
    ∀ l, r = Ok l →
      (length sent = 1%nat ↔ mail_enabled args = true) ∧
      ∀ args', mail_enabled args' = false →
        ∃ w2, deleteExpiredIDs e args' casshost ssl_opts host ks user pw w
              = (w2, Ok l) ∧
              db w2 = db w' ∧ stdout w2 = stdout w' ∧
              outbox w2 = outbox w ∧ cluster_open w2 = false.
Proof.
  intros Hrun.
  destruct (deleteExpiredIDs_mailed _ _ _ _ _ _ _ _ _ _ _ Hrun)
    as (sent & Hsent & Hle & Hnone).
  exists sent. split_and!; [done|done| | |].
  - intros Hunset. apply Hnone. unfold mail_enabled.
    destruct Hunset as [-> | ->]; [done | apply andb_false_r].
  - intros Hoff. split; [by apply Hnone|].
    intros body dbhost subject t w0. by apply sendEmailAlert_disabled.
  - intros l ->. split.
    + apply deleteExpiredIDs_ok in Hrun
        as (_ & _ & _ & _ & _ & _ & _ & _ & _ & _ & sent' & Hsent' & Hlen & _).
      rewrite Hsent in Hsent'. apply app_inv_head in Hsent' as ->.
      rewrite Hlen. by destruct (mail_enabled args).
    + intros args' Hoff.
      destruct (deleteExpiredIDs_mail_off _ _ args' _ _ _ _ _ _ _ _ _
                  Hrun Hoff) as (w2 & ? & ? & ? & ? & ? & ?).
      exists w2. by split_and!.
Qed.

Lemma mail_sent_iff_recipient_and_relay_witness :
  length (outbox (example.sweep example.env_ok example.args_mail None
                    (fresh example.db_small)).1) = 1%nat ∧
  outbox (example.sweep example.env_ok example.args_quiet None
            (fresh example.db_small)).1 = [].
Proof.
  split.
  - destruct (example.sweep example.env_ok example.args_mail None
                (fresh example.db_small)) as [w' r] eqn:Hrun.
    unfold example.sweep in Hrun.
    destruct (mail_sent_iff_recipient_and_relay _ _ _ _ _ _ _ _ _ _ _ Hrun)
      as (sent & Hsent & _ & _ & _ & Hok).
    cbn [fst]. rewrite Hsent. cbn [fresh outbox app].
    assert (∃ l, r = Ok l) as [l Hl].
    { revert Hrun. vm_compute. intros [= _ <-]. by eexists. }
    by apply (Hok l Hl).
  - destruct (example.sweep example.env_ok example.args_quiet None
                (fresh example.db_small)) as [w' r] eqn:Hrun.
    unfold example.sweep in Hrun.
    destruct (mail_sent_iff_recipient_and_relay _ _ _ _ _ _ _ _ _ _ _ Hrun)
      as (sent & Hsent & _ & Hunset & _).
    cbn [fst]. rewrite Hsent, Hunset; [done | by left].
Defined.

(** C7.  With [--ssl], a missing [--ca] or a [--ca] path that does not
    exist ends the script with the usage error (exit status 2) and the
    world untouched: no connection has been attempted.  With a path
    that exists the sweep runs with that trust store. *)
Theorem ssl_needs_an_existing_ca e args w :
  ssl args = true →
  (ca args = None →
     main e args w
     = (w, Raise (SystemExit 2 "--ssl requires --ca to set a truststore"))) ∧
  (∀ path, ca args = Some path → path_exists e path = false →
     main e args w
     = (w, Raise (SystemExit 2 "--ca file not found or reachable"))) ∧
  (∀ path, ca args = Some path → path_exists e path = true →
     main e args w
     = deleteExpiredIDs e args (hostname e) (Some path) (cassandrahost args)
         (keyspace args) (username args) (password args) w).
Proof.
  intros Hssl. unfold main, ssl_validation, bind. rewrite Hssl.
  split_and!.
  - by intros ->.
  - by intros n_after -> ->.
  - by intros n_after -> ->.
Qed.

Lemma ssl_needs_an_existing_ca_witness :
  main example.env_ok example.args_ssl_without_ca (fresh example.db_small)
  = (fresh example.db_small,
     Raise (SystemExit 2 "--ssl requires --ca to set a truststore")) ∧
  main example.env_ok example.args_ssl_missing_file (fresh example.db_small)
  = (fresh example.db_small,
     Raise (SystemExit 2 "--ca file not found or reachable")).
Proof.
  split.
  - apply (ssl_needs_an_existing_ca example.env_ok
             example.args_ssl_without_ca); reflexivity.
  - apply (ssl_needs_an_existing_ca example.env_ok
             example.args_ssl_missing_file (fresh example.db_small)
             eq_refl) with (path := "/nowhere/truststore.pem"); reflexivity.
Defined.

(** C8, as stated, fails: when the driver raises on a delete in the
    middle of the scan, the exception leaves [deleteExpiredIDs] with the
    cluster still open. *)
Lemma cluster_left_open_when_scan_aborts :
  (example.sweep example.env_delete_fails example.args_quiet None
     (fresh example.db_small)).2 = Raise (DriverError (DeleteToken 1%N)) ∧
  cluster_open (example.sweep example.env_delete_fails example.args_quiet
                  None (fresh example.db_small)).1 = true.
Proof. by vm_compute. Qed.

(** C8, amended.  A run that returns has released the cluster; a run
    that raises after the connection was made has not. *)
Theorem cluster_released_when_run_returns
    e args casshost ssl_opts host ks user pw w w' r :
  deleteExpiredIDs e args casshost ssl_opts host ks user pw w = (w', r) →
  (∀ l, r = Ok l → cluster_open w' = false) ∧
  (∀ x, r = Raise x →
     connect_fails e {| conn_host := host; conn_keyspace := ks;
                        conn_user := user; conn_password := pw;
                        conn_ca_certs := ssl_opts |}
     = false →
     cluster_open w' = true).
Proof.
  intros Hrun. split.
  - intros l ->.
    by apply deleteExpiredIDs_ok in Hrun
      as (_ & _ & _ & _ & _ & _ & _ & _ & _ & ? & _).
  - intros x -> Hconn. by eapply deleteExpiredIDs_raised.
Qed.

Lemma cluster_released_when_run_returns_witness :
  cluster_open (example.sweep example.env_ok example.args_mail None
                  (fresh example.db_small)).1 = false.
Proof.
  destruct (example.sweep example.env_ok example.args_mail None
              (fresh example.db_small)) as [w' r] eqn:Hrun.
  unfold example.sweep in Hrun.
  destruct (cluster_released_when_run_returns _ _ _ _ _ _ _ _ _ _ _ Hrun)
    as [Hok _].
  assert (∃ l, r = Ok l) as [l Hl].
  { revert Hrun. vm_compute. intros [= _ <-]. by eexists. }
  exact (Hok l Hl).
Defined.

(** C9.  When [deleteExpiredIDs] returns, the values of the tally
    [consumer_tokens] add up to [rowsdeleted]. *)
Theorem tally_sums_to_rowsdeleted
    e args casshost ssl_opts host ks user pw w w' l :
  deleteExpiredIDs e args casshost ssl_opts host ks user pw w = (w', Ok l) →
  pydict.sum_values (consumer_tokens l) = rowsdeleted l.
Proof.
  intros (_ & _ & Hrd & Hct & _)%deleteExpiredIDs_ok.
  by rewrite Hct, Hrd, sum_values_tally_rows.
Qed.

Lemma tally_sums_to_rowsdeleted_witness :
  ∃ l, snd (example.sweep example.env_ok example.args_mail None
              (fresh example.db_abuse)) = Ok l ∧
       rowsdeleted l = 190 ∧
       pydict.sum_values (consumer_tokens l) = rowsdeleted l.
Proof.
  assert (∃ l, example.sweep example.env_ok example.args_mail None
                 (fresh example.db_abuse)
               = ((example.sweep example.env_ok example.args_mail None
                     (fresh example.db_abuse)).1, Ok l)) as [l Hl].
  { eexists. vm_compute. reflexivity. }
  exists l. split; [by rewrite Hl|].
  unfold example.sweep in Hl.
  split; [|exact (tally_sums_to_rowsdeleted _ _ _ _ _ _ _ _ _ _ _ Hl)].
  revert Hl. vm_compute. by intros [= <-].
Defined.

(** C10.  An empty string for [--email] or for [--smtpserver] makes the
    whole run behave as with the flag left out, and the run hands
    nothing to the relay, however it ends.  An empty string for
    [--sender] behaves as no [--sender]: with a recipient and a relay
    set, [sendEmailAlert] then hands over one message whose sender is the
    generated label, and so does every run that returns. *)
Theorem empty_string_flags_count_as_unset
    e host ks user pw ssl_flag ca_flag casshost ssl_opts
    to_flag from_flag relay_flag :
  let args to_addr from_addr relay :=
    {| cassandrahost := host; keyspace := ks; username := user;
       password := pw; email := to_addr; sender := from_addr;
       smtpserver := relay; ssl := ssl_flag; ca := ca_flag |} in
  let sweep a w := deleteExpiredIDs e a casshost ssl_opts host ks user pw w in
  let label := casshost +:+ " OAuth Token Cleanup Script" in
  (mail_enabled (args (Some "") from_flag relay_flag) = false ∧
   ∀ w, sweep (args (Some "") from_flag relay_flag) w
        = sweep (args None from_flag relay_flag) w) ∧
  (mail_enabled (args to_flag from_flag (Some "")) = false ∧
   ∀ w, sweep (args to_flag from_flag (Some "")) w
        = sweep (args to_flag from_flag None) w) ∧
  (∀ w, sweep (args to_flag (Some "") relay_flag) w
        = sweep (args to_flag None relay_flag) w) ∧
  (∀ body subject t w w',
     sendEmailAlert e (args to_flag (Some "") relay_flag)
       body casshost subject t w = (w', Ok tt) →
     ∀ msg, msg ∈ outbox w' → msg ∈ outbox w ∨ mail_from msg = label) ∧
  (∀ w, outbox (sweep (args (Some "") from_flag relay_flag) w).1
        = outbox w) ∧
  (∀ w, outbox (sweep (args to_flag from_flag (Some "")) w).1
        = outbox w) ∧
  (∀ to_addr relay body subject t w,
     nonempty to_addr && nonempty relay = true →
     (∀ c, smtp_fails e c = false) →
     ∃ w', sendEmailAlert e (args (Some to_addr) (Some "") (Some relay))
             body casshost subject t w = (w', Ok tt) ∧
           outbox w' =
           outbox w ++ [{| mail_relay := relay; mail_from := label;
                           mail_to := [to_addr];
                           mail_subject := (casshost, subject, t);
                           mail_body := body |}]) ∧
  (∀ to_addr relay w w' l,
     nonempty to_addr && nonempty relay = true →
     sweep (args (Some to_addr) (Some "") (Some relay)) w = (w', Ok l) →
     outbox w' =
     outbox w ++
       [{| mail_relay := relay; mail_from := label; mail_to := [to_addr];
           mail_subject := (casshost, "OAuth Token Cleanup", current_time l);
           mail_body := {| rep_server := casshost; rep_keyspace := ks;
                           rep_rows_deleted := rowsdeleted l;
                           rep_abuse := consumer_abuse_table l |} |}]).
Proof.
  intros args sweep label. subst args sweep label. cbv beta. split_and!.
  - done.
  - intros w. unfold deleteExpiredIDs, sendEmailAlert.
    cbn [email sender smtpserver]. by destruct relay_flag.
  - unfold mail_enabled. cbn. apply andb_false_r.
  - intros w. unfold deleteExpiredIDs, sendEmailAlert.
    cbn [email sender smtpserver].
    destruct to_flag as [to_addr|]; [|done].
    change (nonempty "") with false. by rewrite andb_false_r.
  - intros w. unfold deleteExpiredIDs, sendEmailAlert.
    cbn [email sender smtpserver]. done.
  - intros body subject t w w'. unfold sendEmailAlert.
    cbn [email sender smtpserver].
    destruct to_flag as [to_addr|]; [|by intros [= <-]; left].
    destruct relay_flag as [relay|]; [|by intros [= <-]; left].
    destruct (_ && _); [|by intros [= <-]; left].
    change (nonempty "") with false. cbv iota.
    unfold bind, sendmail, smtp, bind, raise, ret.
    destruct (smtp_fails e (SmtpConnect relay)); [done|].
    destruct (smtp_fails e SmtpSendmail); [done|].
    destruct (smtp_fails e SmtpQuit); [done|].
    intros [= <-] msg. cbn [outbox].
    intros [Hin|Hin%list_elem_of_singleton]%elem_of_app; [by left|].
    right. by rewrite Hin.
  - intros w.
    destruct (deleteExpiredIDs e _ casshost ssl_opts host ks user pw w)
      as [w' r] eqn:Hrun.
    apply deleteExpiredIDs_mailed in Hrun as (sent & Hsent & _ & Hnone).
    cbn [fst]. rewrite Hsent, Hnone; [apply app_nil_r | done].
  - intros w.
    destruct (deleteExpiredIDs e _ casshost ssl_opts host ks user pw w)
      as [w' r] eqn:Hrun.
    apply deleteExpiredIDs_mailed in Hrun as (sent & Hsent & _ & Hnone).
    cbn [fst]. rewrite Hsent, Hnone; [apply app_nil_r|].
    unfold mail_enabled. cbn. apply andb_false_r.
  - intros to_addr relay body subject t w Hset Hsmtp.
    unfold sendEmailAlert. cbn [email sender smtpserver]. rewrite Hset.
    change (nonempty "") with false. cbv iota.
    unfold bind, sendmail, smtp, bind, raise, ret. rewrite !Hsmtp.
    eexists. split; reflexivity.
  - intros to_addr relay w w' l Hset
      (w8 & w9 & Hbox8 & Hmail & Hbox)%deleteExpiredIDs_mail_step.
    rewrite Hbox, <- Hbox8.
    by eapply sendEmailAlert_sent in Hmail.
Qed.

Lemma empty_string_flags_count_as_unset_witness :
  mail_from <$>
    outbox (example.sweep example.env_ok
              (example.args_of (Some "email@server.com") (Some "")
                 (Some "mail.relay.com") false None)
              None (fresh example.db_small)).1
  = ["cass01 OAuth Token Cleanup Script"] ∧
  outbox (example.sweep example.env_ok
            (example.args_of (Some "") None (Some "mail.relay.com")
               false None)
            None (fresh example.db_small)).1 = [] ∧
  outbox (example.sweep example.env_ok
            (example.args_of (Some "email@server.com") None (Some "")
               false None)
            None (fresh example.db_small)).1 = [].
Proof.
  split_and!.
  - assert (∃ l, example.sweep example.env_ok
                   (example.args_of (Some "email@server.com") (Some "")
                      (Some "mail.relay.com") false None)
                   None (fresh example.db_small)
                 = ((example.sweep example.env_ok
                       (example.args_of (Some "email@server.com") (Some "")
                          (Some "mail.relay.com") false None)
                       None (fresh example.db_small)).1, Ok l)) as [l Hl].
    { eexists. vm_compute. reflexivity. }
    destruct (empty_string_flags_count_as_unset example.env_ok
                "localhost" "kong_dev" "dbausername" "dbapassword" false None
                "cass01" None None None None)
      as (_ & _ & _ & _ & _ & _ & _ & Hsent).
    unfold example.sweep, example.args_of in Hl |- *.
    by rewrite (Hsent "email@server.com" "mail.relay.com" _ _ l eq_refl Hl).
  - destruct (empty_string_flags_count_as_unset example.env_ok
                "localhost" "kong_dev" "dbausername" "dbapassword" false None
                "cass01" None None None (Some "mail.relay.com"))
      as (_ & _ & _ & _ & Hnone & _).
    exact (Hnone (fresh example.db_small)).
  - destruct (empty_string_flags_count_as_unset example.env_ok
                "localhost" "kong_dev" "dbausername" "dbapassword" false None
                "cass01" None (Some "email@server.com") None None)
      as (_ & _ & _ & _ & _ & Hnone & _).
    exact (Hnone (fresh example.db_small)).
Defined.

(** * Further properties of the script *)

(** ** What a run leaves alone *)

Lemma deleteExpiredIDs_preserves {X} (f : world → X)
    e args casshost ssl_opts host ks user pw :
  ignores_stdout f → ignores_tokens f → ignores_outbox f → ignores_session f →
  preserves (same f)
    (deleteExpiredIDs e args casshost ssl_opts host ks user pw).
Proof.
  intros Hs Ht Hb Hc. unfold deleteExpiredIDs.
  apply preserves_bind; [apply _| |intros _].
  { by apply cluster_connect_preserves. }
  apply preserves_bind; [apply _|apply select_count_preserves|intros cb].
  apply preserves_bind; [apply _|by apply print_preserves|intros _].
  apply preserves_bind; [apply _|apply select_tokens_preserves|intros rows].
  apply preserves_bind; [apply _|by apply scan_preserves|intros counters].
  apply preserves_bind; [apply _|apply select_count_preserves|intros n_after].
  apply preserves_bind; [apply _|by apply print_preserves|intros _].
  apply preserves_bind; [apply _|by apply abuse_loop_preserves|intros table].
  apply preserves_bind; [apply _|by apply sendEmailAlert_preserves|intros _].
  apply preserves_bind; [apply _| |intros _; apply preserves_ret, _].
  by apply cluster_shutdown_preserves.
Qed.

(** X1.  However a run of [deleteExpiredIDs] ends, the credential table
    and the consumer table are as they were, and the token table holds
    nothing it did not hold before: the run adds no token and alters
    none. *)
Theorem run_only_removes_tokens
    e args casshost ssl_opts host ks user pw w :
  let w' := (deleteExpiredIDs e args casshost ssl_opts host ks user pw w).1 in
  credentials w' = credentials w ∧
  usernames w' = usernames w ∧
  tokens w' ⊆ tokens w.
Proof.
  intros w'. subst w'.
  destruct (deleteExpiredIDs e args casshost ssl_opts host ks user pw w)
    as [w' r] eqn:Hrun. cbn [fst]. split_and!.
  - by apply (deleteExpiredIDs_preserves credentials) in Hrun.
  - by apply (deleteExpiredIDs_preserves usernames) in Hrun.
  - by apply deleteExpiredIDs_only_expired_gone in Hrun as [Hsub _].
Qed.

(** ** The console log *)

Lemma print_stdout line w w' r :
  print line w = (w', r) → stdout w' = stdout w ++ [line].
Proof. by intros [= <- _]. Qed.

Lemma delete_token_stdout e token w w' r :
  delete_token e token w = (w', r) → stdout w' = stdout w.
Proof. by apply (delete_token_preserves stdout). Qed.

Lemma scan_stdout e now o rows rd ct w w' rd' ct' :
  tzinfo now = Some o →
  scan e now rows rd ct w = (w', Ok (rd', ct')) →
  ∃ lines, stdout w' = stdout w ++ lines ∧
           Forall2 deleting_line (filter (past now) rows) lines.
Proof.
  intros Hnow. revert rd ct w.
  induction rows as [|row rows IH]; intros rd ct w; cbn [scan].
  - intros [= <- _ _]. exists []. rewrite app_nil_r. split; [done|constructor].
  - intros (w1 & x & [-> Hx]%lift_ok & Hk)%bind_ok.
    apply bind_ok in Hk as (w2 & b & [-> Hb]%lift_ok & Hk).
    assert (b = bool_decide (past now row)) as ->.
    { apply (expired_ok now o); [done|]. unfold expired. by rewrite Hx. }
    rewrite filter_cons. destruct (decide (past now row)) as [Hp|Hp].
    + rewrite bool_decide_eq_true_2 in Hk by done.
      apply bind_ok in Hk as (w3 & [] & Hprint%print_stdout & Hk).
      apply bind_ok in Hk as (w4 & [] & Hdel%delete_token_stdout & Hk).
      apply IH in Hk as (lines & Hout & Hlines).
      eexists (_ :: lines). split.
      * rewrite Hout, Hdel, Hprint, <- app_assoc. reflexivity.
      * constructor; [|done]. by exists x.
    + rewrite bool_decide_eq_false_2 in Hk by done. by apply IH in Hk.
Qed.

Lemma abuse_loop_stdout e ks items table w w' table' :
  abuse_loop e ks items table w = (w', Ok table') →
  ∃ lines, table' = table ++ lines ∧
           stdout w' = stdout w ++ (abuse_output <$> lines).
Proof.
  revert table w.
  induction items as [|[key value] items IH]; intros table w; cbn [abuse_loop].
  - intros [= <- <-]. exists []. by rewrite !app_nil_r.
  - destruct (100 <=? value); [|apply IH].
    intros (w1 & creds & [= <- <-]%session_execute_ok & Hk)%bind_ok.
    apply bind_ok in Hk as (w2 & consumer & [-> _]%index0_ok & Hk).
    apply bind_ok in Hk as (w3 & names & [= <- <-]%session_execute_ok & Hk).
    apply bind_ok in Hk as (w4 & name & [-> _]%index0_ok & Hk).
    apply bind_ok in Hk as (w5 & [] & Hprint%print_stdout & Hk).
    apply IH in Hk as (lines & -> & Hout).
    eexists (_ :: lines). split; [by rewrite <- app_assoc|].
    rewrite Hout, Hprint, <- app_assoc. reflexivity.
Qed.

(** X2.  When [deleteExpiredIDs] returns, what it has printed is, in
    this order: the count before, one line for each deleted token in the
    order of the scan (with the token's id, credential, ttl, its
    [created_at] made aware and its expiration time), the count after,
    and one line for each entry of the abuse report.  There are as many
    token lines as [rowsdeleted]. *)
Theorem console_log_of_a_run
    e args casshost ssl_opts host ks user pw w w' l :
  deleteExpiredIDs e args casshost ssl_opts host ks user pw w = (w', Ok l) →
  ∃ lines,
    stdout w' = stdout w ++ [OutCountBefore (count_before l)] ++ lines
                  ++ [OutCountAfter (count_after l)]
                  ++ (abuse_output <$> consumer_abuse_table l) ∧
    Forall2 deleting_line
      (filter (past (current_time l)) (row_of <$> map_to_list (tokens w)))
      lines ∧
    Z.of_nat (length lines) = rowsdeleted l.
Proof.
  intros Hrun.
  pose proof (deleteExpiredIDs_ok _ _ _ _ _ _ _ _ _ _ _ Hrun)
    as (Hnow & _ & Hrd & _).
  revert Hrun. unfold deleteExpiredIDs.
  intros (w1 & [] & Hconn & H)%bind_ok.
  apply bind_ok in H as (w2 & cb & [-> ->]%select_count_ok & H).
  apply bind_ok in H as (w3 & [] & Hp1 & H).
  apply bind_ok in H as (w4 & rows & [-> ->]%select_tokens_ok & H).
  apply bind_ok in H as (w5 & [rd ct] & Hscan & H).
  apply bind_ok in H as (w6 & n_after & [-> ->]%select_count_ok & H).
  apply bind_ok in H as (w7 & [] & Hp2%print_stdout & H).
  apply bind_ok in H as (w8 & table & Habuse & H).
  apply bind_ok in H as (w9 & [] & Hmail & H).
  apply bind_ok in H as (w10 & [] & [= <-] & [= <- <-]).
  cbn [current_time count_before rowsdeleted count_after
       consumer_abuse_table stdout] in *.
  apply cluster_connect_ok in Hconn as (Hdb1 & _ & Hout1 & _ & _).
  assert (tokens w3 = tokens w) as Ht3.
  { apply print_ok in Hp1 as (Hdb3 & _). unfold tokens. congruence. }
  apply print_stdout in Hp1.
  eapply scan_stdout in Hscan as (lines & Hout5 & Hlines); [|done].
  apply abuse_loop_stdout in Habuse as (alines & Htable & Hout8).
  apply (sendEmailAlert_preserves stdout) in Hmail; [|done].
  unfold same in Hmail. cbn [app] in Htable. subst table.
  exists lines. split_and!.
  - rewrite Hmail, Hout8, Hp2, Hout5, Hp1, Hout1, <- !app_assoc. reflexivity.
  - by rewrite <- Ht3.
  - apply Forall2_length in Hlines. rewrite <- Hlines, Hrd. by rewrite Ht3.
Qed.

Lemma console_log_of_a_run_witness :
  ∃ l lines,
    (example.sweep example.env_ok example.args_quiet None
       (fresh example.db_small)).2 = Ok l ∧
    stdout (example.sweep example.env_ok example.args_quiet None
              (fresh example.db_small)).1
    = [] ++ [OutCountBefore (count_before l)] ++ lines
        ++ [OutCountAfter (count_after l)]
        ++ (abuse_output <$> consumer_abuse_table l) ∧
    Z.of_nat (length lines) = rowsdeleted l.
Proof.
  assert (∃ l, example.sweep example.env_ok example.args_quiet None
                 (fresh example.db_small)
               = ((example.sweep example.env_ok example.args_quiet None
                     (fresh example.db_small)).1, Ok l)) as [l Hl].
  { eexists. vm_compute. reflexivity. }
  exists l. unfold example.sweep in *.
  destruct (console_log_of_a_run _ _ _ _ _ _ _ _ _ _ _ Hl)
    as (lines & Hout & _ & Hlen).
  exists lines. split_and!; [by rewrite Hl|exact Hout|exact Hlen].
Defined.

(** ** The message of a returning run *)

(** X3.  When [deleteExpiredIDs] returns and both [--email] and
    [--smtpserver] are non-empty, the one message handed to the relay goes
    through that relay to that address alone, comes from [--sender] (the
    generated label when [--sender] is missing or empty), has the host
    name, the title and [current_time] in its subject, and reports the
    host, the keyspace, [rowsdeleted] and the abuse table. *)
Theorem message_of_a_run
    e args casshost ssl_opts host ks user pw w w' l :
  deleteExpiredIDs e args casshost ssl_opts host ks user pw w = (w', Ok l) →
  mail_enabled args = true →
  ∃ to_addr relay,
    email args = Some to_addr ∧ smtpserver args = Some relay ∧
    outbox w' =
    outbox w ++
      [{| mail_relay := relay;
          mail_from := match sender args with
                       | Some s =>
                           if nonempty s then s
                           else casshost +:+ " OAuth Token Cleanup Script"
                       | None => casshost +:+ " OAuth Token Cleanup Script"
                       end;
          mail_to := [to_addr];
          mail_subject := (casshost, "OAuth Token Cleanup", current_time l);
          mail_body := {| rep_server := casshost; rep_keyspace := ks;
                          rep_rows_deleted := rowsdeleted l;
                          rep_abuse := consumer_abuse_table l |} |}].
Proof.
  intros (w8 & w9 & Hbox8 & Hmail & Hbox)%deleteExpiredIDs_mail_step Hen.
  assert (∃ to_addr relay,
            email args = Some to_addr ∧ smtpserver args = Some relay)
    as (to_addr & relay & Hto & Hrelay).
  { revert Hen. unfold mail_enabled, truthy.
    destruct (email args) as [to_addr|]; [|done].
    destruct (smtpserver args) as [relay|]; [eauto|].
    by rewrite andb_false_r. }
  exists to_addr, relay. split_and!; [done|done|].
  rewrite Hbox, <- Hbox8.
  by apply (sendEmailAlert_sent e args _ _ _ _ w8 w9).
Qed.

Lemma message_of_a_run_witness :
  mail_from <$> outbox (example.sweep example.env_ok example.args_mail None
                          (fresh example.db_small)).1
  = ["cass01 OAuth Token Cleanup Script"] ∧
  mail_to <$> outbox (example.sweep example.env_ok example.args_mail None
                        (fresh example.db_small)).1
  = [["email@server.com"]].
Proof.
  assert (∃ l, example.sweep example.env_ok example.args_mail None
                 (fresh example.db_small)
               = ((example.sweep example.env_ok example.args_mail None
                     (fresh example.db_small)).1, Ok l)) as [l Hl].
  { eexists. vm_compute. reflexivity. }
  unfold example.sweep in *.
  destruct (message_of_a_run _ _ _ _ _ _ _ _ _ _ _ Hl eq_refl)
    as (to_addr & relay & [= <-] & [= <-] & ->).
  split; reflexivity.
Defined.

(** ** Where an exception can come from *)

Lemma bind_raise_inv {A B} (m : M A) (k : A → M B) w w' x :
  bind m k w = (w', Raise x) →
  m w = (w', Raise x) ∨ ∃ w1 a, m w = (w1, Ok a) ∧ k a w1 = (w', Raise x).
Proof.
  unfold bind. destruct (m w) as [w1 [a|y]] eqn:E; [eauto|].
  intros [= <- <-]. by left.
Qed.

Lemma expiration_time_of_raise row x :
  expiration_time_of row = Raise x → x = OverflowError.
Proof.
  unfold expiration_time_of, timedelta_seconds, add.
  destruct (MAX_DELTA_DAYS <? _); [by intros [= <-]|]. simpl.
  destruct (_ && _); [done | by intros [= <-]].
Qed.

Lemma gt_raise a b x : gt a b = Raise x → x = TypeError.
Proof.
  unfold gt. destruct (tzinfo a), (tzinfo b); try (by intros [= <-]).
  by destruct (_ =? _).
Qed.

Section provenance.
Context (P : exn → Prop).
Context (P_overflow : P OverflowError) (P_type : P TypeError).
Context (P_index : P IndexError) (P_host : P NoHostAvailable).
Context (P_driver : ∀ q, P (DriverError q)).

Lemma raises_ret {A} (a : A) : raises P (ret a).
Proof. by intros w w' x. Qed.

Lemma raises_bind {A B} (m : M A) (k : A → M B) :
  raises P m → (∀ a, raises P (k a)) → raises P (bind m k).
Proof.
  intros Hm Hk w w' x [Hr|(w1 & a & _ & Hr)]%bind_raise_inv;
    [by eapply Hm | by eapply Hk].
Qed.

Lemma raises_session_execute {A} e q (answer : M A) :
  raises P answer → raises P (session_execute e q answer).
Proof.
  intros Ha w w' x. unfold session_execute.
  destruct (execute_fails e q); [by intros [= _ <-] | apply Ha].
Qed.

Lemma raises_index0 {A} (rows : list A) : raises P (index0 rows).
Proof. intros w w' x. destruct rows; [by intros [= _ <-] | done]. Qed.

Lemma raises_print line : raises P (print line).
Proof. by intros w w' x. Qed.

Lemma raises_cluster_connect e c : raises P (cluster_connect e c).
Proof.
  intros w w' x. unfold cluster_connect.
  destruct (connect_fails e c); [by intros [= _ <-] | done].
Qed.

Lemma raises_select_count e : raises P (select_count e).
Proof. apply raises_session_execute. by intros w w' x. Qed.

Lemma raises_select_tokens e : raises P (select_tokens e).
Proof. apply raises_session_execute. by intros w w' x. Qed.

Lemma raises_delete_token e token : raises P (delete_token e token).
Proof. apply raises_session_execute. by intros w w' x. Qed.

Lemma raises_scan e now rows rd ct : raises P (scan e now rows rd ct).
Proof.
  revert rd ct. induction rows as [|row rows IH]; intros rd ct; cbn [scan].
  - apply raises_ret.
  - apply raises_bind.
    { intros w w' x [= _ ->%expiration_time_of_raise]. done. }
    intros expiration_time. apply raises_bind.
    { intros w w' x [= _ ->%gt_raise]. done. }
    intros [|]; [|apply IH].
    apply raises_bind; [apply raises_print|intros _].
    apply raises_bind; [apply raises_delete_token|intros _]. apply IH.
Qed.

Lemma raises_abuse_loop e ks items table :
  raises P (abuse_loop e ks items table).
Proof.
  revert table.
  induction items as [|[key value] items IH]; intros table; cbn [abuse_loop].
  - apply raises_ret.
  - destruct (100 <=? value); [|apply IH].
    apply raises_bind;
      [apply raises_session_execute; by intros w w' x|intros creds].
    apply raises_bind; [apply raises_index0|intros consumer].
    apply raises_bind;
      [apply raises_session_execute; by intros w w' x|intros names].
    apply raises_bind; [apply raises_index0|intros name].
    apply raises_bind; [apply raises_print|intros _]. apply IH.
Qed.

End provenance.

Lemma sendEmailAlert_raise e args body dbhost subject t w w' x :
  sendEmailAlert e args body dbhost subject t w = (w', Raise x) →
  mail_enabled args = true ∧
  ∃ c, x = SMTPException c ∧
       (c ≠ SmtpQuit → outbox w' = outbox w) ∧
       (c = SmtpQuit → length (outbox w') = S (length (outbox w))).
Proof.
  destruct (mail_enabled args) eqn:Hen;
    [|by rewrite sendEmailAlert_disabled].
  intros Hrun. split; [done|]. revert Hen Hrun.
  unfold mail_enabled, truthy, sendEmailAlert.
  destruct (email args) as [to_addr|]; [|done].
  destruct (smtpserver args) as [relay|]; [|by rewrite andb_false_r].
  intros ->. unfold bind, sendmail, smtp, bind, raise, ret.
  destruct (smtp_fails e (SmtpConnect relay)).
  { intros [= <- <-]. eexists. by split_and!. }
  destruct (smtp_fails e SmtpSendmail).
  { intros [= <- <-]. eexists. by split_and!. }
  destruct (smtp_fails e SmtpQuit); [|done].
  intros [= <- <-]. eexists. split_and!; [done|done|].
  intros _. cbn [outbox]. rewrite length_app. simpl. lia.
Qed.

(** X4.  A run of [deleteExpiredIDs] that ends in an exception which does
    not come from [smtplib] has handed nothing to the relay. *)
Theorem no_mail_when_the_sweep_fails
    e args casshost ssl_opts host ks user pw w w' x :
  deleteExpiredIDs e args casshost ssl_opts host ks user pw w
  = (w', Raise x) →
  not_smtp x →
  outbox w' = outbox w.
Proof.
  unfold deleteExpiredIDs. intros Hrun Hx. revert Hrun.
  apply bind_raised; [by apply cluster_connect_preserves|intros _ w1].
  apply bind_raised; [apply select_count_preserves|intros cb w2].
  apply bind_raised; [by apply print_preserves|intros _ w3].
  apply bind_raised; [apply select_tokens_preserves|intros rows w4].
  apply bind_raised; [by apply scan_preserves|intros counters w5].
  apply bind_raised; [apply select_count_preserves|intros n_after w6].
  apply bind_raised; [by apply print_preserves|intros _ w7].
  apply bind_raised; [by apply abuse_loop_preserves|intros table w8].
  intros [Hmail|(w9 & [] & _ & Hrest)]%bind_raise_inv; [|done].
  apply sendEmailAlert_raise in Hmail as (_ & c & -> & _). by destruct (Hx c).
Qed.

Lemma no_mail_when_the_sweep_fails_witness :
  outbox (example.sweep example.env_delete_fails example.args_mail None
            (fresh example.db_small)).1 = [].
Proof.
  destruct (example.sweep example.env_delete_fails example.args_mail None
              (fresh example.db_small)) as [w' r] eqn:Hrun.
  assert (r = Raise (DriverError (DeleteToken 1%N))) as ->.
  { revert Hrun. vm_compute. by intros [= _ <-]. }
  unfold example.sweep in Hrun. cbn [fst].
  by rewrite (no_mail_when_the_sweep_fails _ _ _ _ _ _ _ _ _ _ _ Hrun).
Defined.

Lemma not_smtp_absurd c : ¬ not_smtp (SMTPException c).
Proof. intros H. by apply (H c). Qed.

Lemma cluster_connect_ok_inv e c w w' :
  cluster_connect e c w = (w', Ok tt) → connect_fails e c = false.
Proof. unfold cluster_connect. by destruct (connect_fails e c). Qed.

(** X5.  When a run of [deleteExpiredIDs] ends in an exception of
    [smtplib], mail was enabled, and the deletions and the console output
    are all there: the database and the output are those of the same run
    with mail off, which returns.  The cluster is left open.  The
    message has been handed over if it is [quit] that failed, and not
    otherwise. *)
Theorem smtp_failure_comes_after_the_deletions
    e args casshost ssl_opts host ks user pw w w' c :
  deleteExpiredIDs e args casshost ssl_opts host ks user pw w
  = (w', Raise (SMTPException c)) →
  mail_enabled args = true ∧
  cluster_open w' = true ∧
  (c = SmtpQuit → length (outbox w') = S (length (outbox w))) ∧
  (c ≠ SmtpQuit → outbox w' = outbox w) ∧
  ∀ args', mail_enabled args' = false →
    ∃ w2 l, deleteExpiredIDs e args' casshost ssl_opts host ks user pw w
            = (w2, Ok l) ∧
            db w' = db w2 ∧ stdout w' = stdout w2.
Proof.
  intros Hrun.
  assert (∃ w8,
            outbox w8 = outbox w ∧ db w' = db w8 ∧ stdout w' = stdout w8 ∧
            connect_fails e {| conn_host := host; conn_keyspace := ks;
                               conn_user := user; conn_password := pw;
                               conn_ca_certs := ssl_opts |} = false ∧
            (∃ body t, sendEmailAlert e args body casshost
                         "OAuth Token Cleanup" t w8
                       = (w', Raise (SMTPException c))) ∧
            ∀ args', mail_enabled args' = false →
              ∃ l, deleteExpiredIDs e args' casshost ssl_opts host ks user pw w
                   = ({| db := db w8; connections := connections w8;
                         cluster_open := false; stdout := stdout w8;
                         outbox := outbox w8 |}, Ok l))
    as (w8 & Hbox8 & Hdb & Hout & Hconn & (body & t & Hmail) & Hoff).
  { revert Hrun. unfold deleteExpiredIDs.
    intros [Hbad|(w1 & [] & Hconn & H)]%bind_raise_inv.
    { by apply (raises_cluster_connect not_smtp), not_smtp_absurd in Hbad. }
    apply bind_raise_inv in H as [Hbad|(w2 & cb & Hcb & H)].
    { by apply (raises_select_count not_smtp), not_smtp_absurd in Hbad. }
    apply bind_raise_inv in H as [Hbad|(w3 & [] & Hp1 & H)]; [done|].
    apply bind_raise_inv in H as [Hbad|(w4 & rows & Hrows & H)].
    { by apply (raises_select_tokens not_smtp), not_smtp_absurd in Hbad. }
    apply bind_raise_inv in H as [Hbad|(w5 & counters & Hscan & H)].
    { by apply (raises_scan not_smtp), not_smtp_absurd in Hbad. }
    apply bind_raise_inv in H as [Hbad|(w6 & n_after & Hca & H)].
    { by apply (raises_select_count not_smtp), not_smtp_absurd in Hbad. }
    apply bind_raise_inv in H as [Hbad|(w7 & [] & Hp2 & H)]; [done|].
    apply bind_raise_inv in H as [Hbad|(w8 & table & Habuse & H)].
    { by apply (raises_abuse_loop not_smtp), not_smtp_absurd in Hbad. }
    apply bind_raise_inv in H as [Hmail|(w9 & [] & _ & Hrest)]; [|done].
    exists w8. split_and!.
    - pose proof (cluster_connect_ok _ _ _ _ Hconn) as (_ & Hbox1 & _).
      pose proof (select_count_ok _ _ _ _ Hcb) as [-> _].
      pose proof (print_ok _ _ _ _ Hp1) as (_ & Hbox3 & _).
      pose proof (select_tokens_ok _ _ _ _ Hrows) as [-> _].
      pose proof (scan_preserves outbox _ _ _ _ _
                    ltac:(done) ltac:(done) _ _ _ Hscan) as Hbox5.
      pose proof (select_count_ok _ _ _ _ Hca) as [-> _].
      pose proof (print_ok _ _ _ _ Hp2) as (_ & Hbox7 & _).
      pose proof (abuse_loop_preserves outbox _ _ _ _
                    ltac:(done) _ _ _ Habuse) as Hbox8.
      unfold same in *. congruence.
    - by apply (sendEmailAlert_preserves db) in Hmail.
    - by apply (sendEmailAlert_preserves stdout) in Hmail.
    - by eapply cluster_connect_ok_inv.
    - eauto.
    - intros args' Hoff. eexists.
      rewrite (bind_step _ _ _ _ _ Hconn), (bind_step _ _ _ _ _ Hcb),
        (bind_step _ _ _ _ _ Hp1), (bind_step _ _ _ _ _ Hrows),
        (bind_step _ _ _ _ _ Hscan), (bind_step _ _ _ _ _ Hca),
        (bind_step _ _ _ _ _ Hp2), (bind_step _ _ _ _ _ Habuse).
      rewrite (bind_step _ _ _ _ _
                 (sendEmailAlert_disabled _ _ _ _ _ _ _ Hoff)).
      reflexivity. }
  pose proof (sendEmailAlert_raise _ _ _ _ _ _ _ _ _ Hmail)
    as (Hen & c' & [= <-] & Hkeep & Hquit).
  split_and!.
  - done.
  - by eapply deleteExpiredIDs_raised.
  - intros Hc. rewrite <- Hbox8. by apply Hquit.
  - intros Hc. rewrite <- Hbox8. by apply Hkeep.
  - intros args' Hoff'. destruct (Hoff args' Hoff') as [l Hl].
    eexists _, l. split; [exact Hl|]. by split.
Qed.

Lemma smtp_failure_comes_after_the_deletions_witness :
  cluster_open (example.sweep example.env_sendmail_fails example.args_mail
                  None (fresh example.db_small)).1 = true ∧
  outbox (example.sweep example.env_sendmail_fails example.args_mail
            None (fresh example.db_small)).1 = [].
Proof.
  destruct (example.sweep example.env_sendmail_fails example.args_mail None
              (fresh example.db_small)) as [w' r] eqn:Hrun.
  assert (r = Raise (SMTPException SmtpSendmail)) as ->.
  { revert Hrun. vm_compute. by intros [= _ <-]. }
  unfold example.sweep in Hrun. cbn [fst].
  destruct (smtp_failure_comes_after_the_deletions
              _ _ _ _ _ _ _ _ _ _ _ Hrun) as (_ & Hopen & _ & Hbox & _).
  split; [exact Hopen | by apply Hbox].
Defined.

(** ** The connection *)

Lemma deleteExpiredIDs_connections
    e args casshost ssl_opts host ks user pw w w' r :
  deleteExpiredIDs e args casshost ssl_opts host ks user pw w = (w', r) →
  connections w' =
  connections w ++ [{| conn_host := host; conn_keyspace := ks;
                       conn_user := user; conn_password := pw;
                       conn_ca_certs := ssl_opts |}].
Proof.
  unfold deleteExpiredIDs. unfold bind at 1, cluster_connect at 1.
  destruct (connect_fails e _); [by intros [= <- _]|].
  set (w1 := {| db := db w; cluster_open := true |}).
  change (connections w ++ _) with (connections w1).
  generalize w1 w' r.
  apply (preserves_bind _ (select_count e));
    [apply select_count_preserves|intros cb].
  apply preserves_bind; [apply _|by apply print_preserves|intros _].
  apply preserves_bind; [apply _|apply select_tokens_preserves|intros rows].
  apply preserves_bind; [apply _|by apply scan_preserves|intros counters].
  apply preserves_bind; [apply _|apply select_count_preserves|intros n_after].
  apply preserves_bind; [apply _|by apply print_preserves|intros _].
  apply preserves_bind; [apply _|by apply abuse_loop_preserves|intros table].
  apply preserves_bind; [apply _|by apply sendEmailAlert_preserves|intros _].
  apply preserves_bind; [apply _| |intros _; apply preserves_ret, _].
  intros w2 w3 r3 [= <- _]. reflexivity.
Qed.

(** X6.  However the script ends, it has asked for at most one
    connection.  Without [--ssl] it asks for exactly one, with no trust
    store, whatever [--ca] says: the path is not even looked at.  With
    [--ssl] and a [--ca] path that exists it asks for exactly one with
    that trust store.  The host, keyspace, user and password are those
    of the command line. *)
Theorem script_connects_once e args w :
  let w' := (main e args w).1 in
  (ssl args = false →
     connections w' = connections w ++ [connection_of args None]) ∧
  (∀ path, ssl args = true → ca args = Some path →
     path_exists e path = true →
     connections w' = connections w ++ [connection_of args (Some path)]) ∧
  (length (connections w') ≤ S (length (connections w)))%nat.
Proof.
  intros w'. subst w'. unfold main, ssl_validation. split_and!.
  - intros ->. unfold bind at 1, ret at 1.
    destruct (deleteExpiredIDs _ _ _ _ _ _ _ _ w) as [w' r] eqn:Hrun.
    by apply deleteExpiredIDs_connections in Hrun.
  - intros path -> -> ->. unfold bind at 1, ret at 1. cbn [negb].
    destruct (deleteExpiredIDs _ _ _ _ _ _ _ _ w) as [w' r] eqn:Hrun.
    by apply deleteExpiredIDs_connections in Hrun.
  - destruct (ssl args).
    + destruct (ca args) as [path|]; [|simpl; lia].
      destruct (path_exists e path); [|simpl; lia].
      unfold bind at 1, ret at 1. cbn [negb].
      destruct (deleteExpiredIDs _ _ _ _ _ _ _ _ w) as [w' r] eqn:Hrun.
      apply deleteExpiredIDs_connections in Hrun. cbn [fst].
      rewrite Hrun, length_app. simpl. lia.
    + unfold bind at 1, ret at 1.
      destruct (deleteExpiredIDs _ _ _ _ _ _ _ _ w) as [w' r] eqn:Hrun.
      apply deleteExpiredIDs_connections in Hrun. cbn [fst].
      rewrite Hrun, length_app. simpl. lia.
Qed.

Lemma script_connects_once_witness :
  connections (main example.env_ok example.args_ca_without_ssl
                 (fresh example.db_small)).1
  = [connection_of example.args_ca_without_ssl None] ∧
  connections (main example.env_ok example.args_ssl
                 (fresh example.db_small)).1
  = [connection_of example.args_ssl (Some "/etc/kong/truststore.pem")].
Proof.
  split.
  - by apply (script_connects_once example.env_ok
                example.args_ca_without_ssl (fresh example.db_small)).
  - by apply (script_connects_once example.env_ok
                example.args_ssl (fresh example.db_small)).
Defined.

(** ** A scan that stops half way *)

Lemma bind_assoc {A B C} (m : M A) (f : A → M B) (g : B → M C) w :
  bind (bind m f) g w = bind m (λ a, bind (f a) g) w.
Proof. unfold bind. by destruct (m w) as [w1 [a|x]]. Qed.

Lemma bind_ext {A B} (m : M A) (f g : A → M B) w :
  (∀ a w1, f a w1 = g a w1) → bind m f w = bind m g w.
Proof. intros H. unfold bind. by destruct (m w) as [w1 [a|x]]. Qed.

Lemma scan_app e now rows1 rows2 rd ct w :
  scan e now (rows1 ++ rows2) rd ct w
  = bind (scan e now rows1 rd ct) (λ c, scan e now rows2 c.1 c.2) w.
Proof.
  revert rd ct w. induction rows1 as [|row rows1 IH]; intros rd ct w; [done|].
  cbn [app scan].
  rewrite bind_assoc. apply bind_ext. intros t w1.
  rewrite bind_assoc. apply bind_ext. intros [|] w2; [|apply IH].
  rewrite bind_assoc. apply bind_ext. intros _ w3.
  rewrite bind_assoc. apply bind_ext. intros _ w4. apply IH.
Qed.

Lemma scan_step_fails e now row rows rd ct w x :
  step_fails e now row x →
  ∃ w', scan e now (row :: rows) rd ct w = (w', Raise x) ∧
        tokens w' = tokens w.
Proof.
  unfold step_fails, expired. cbn [scan]. unfold bind at 1, lift at 1.
  destruct (expiration_time_of row) as [t|y];
    [|intros [[= <-]|[? _]]; [eauto|done]].
  unfold bind at 1, lift at 1.
  intros [->|(-> & Hfail & ->)]; [eauto|].
  unfold bind at 1, print at 1. unfold bind at 1.
  unfold delete_token, session_execute. rewrite Hfail.
  eexists. split; reflexivity.
Qed.

(** X7.  The scan stops at the first row whose expiration raises or whose
    delete the driver refuses, with that exception, whatever rows come
    after it: the due rows before it are gone from the table, and nothing
    else is. *)
Theorem scan_stops_at_the_first_failure
    e now o rows1 row rows2 rd ct w w1 c1 x :
  tzinfo now = Some o →
  scan e now rows1 rd ct w = (w1, Ok c1) →
  step_fails e now row x →
  ∃ w2, scan e now (rows1 ++ row :: rows2) rd ct w = (w2, Raise x) ∧
        tokens w2 = delete_rows (filter (past now) rows1) (tokens w).
Proof.
  intros Hnow Hscan Hfail. rewrite scan_app, (bind_step _ _ _ _ _ Hscan).
  destruct (scan_step_fails e now row rows2 c1.1 c1.2 w1 x Hfail)
    as (w2 & Hrun & Ht).
  exists w2. split; [done|]. rewrite Ht. destruct c1 as [rd1 ct1].
  by eapply scan_ok in Hscan as (? & _).
Qed.

Lemma scan_stops_at_the_first_failure_witness :
  ∃ w2,
    scan example.env_delete_fails
      (example.aware (example.T + 3601 * US_PER_SECOND) utc)
      ([row_of (3%N, example.token 20 3600 (example.naive example.T))]
       ++ row_of (1%N, example.token 10 3600 (example.naive example.T))
       :: [row_of (5%N, example.token 10 3600 (example.naive example.T))])
      0 [] (fresh example.db_small)
    = (w2, Raise (DriverError (DeleteToken 1%N))) ∧
    tokens w2 !! 3%N = None ∧ is_Some (tokens w2 !! 1%N).
Proof.
  destruct (scan_stops_at_the_first_failure example.env_delete_fails
              (example.aware (example.T + 3601 * US_PER_SECOND) utc) utc
              [row_of (3%N, example.token 20 3600 (example.naive example.T))]
              (row_of (1%N, example.token 10 3600 (example.naive example.T)))
              [row_of (5%N, example.token 10 3600 (example.naive example.T))]
              0 [] (fresh example.db_small) _ _
              (DriverError (DeleteToken 1%N)) eq_refl eq_refl)
    as (w2 & Hrun & Ht).
  { right. by split_and!. }
  exists w2. split; [exact Hrun|]. rewrite Ht. split; [reflexivity|].
  vm_compute. eauto.
Defined.

(** ** Every row has an answer or overflows *)

Lemma in_range_timedelta row :
  (MAX_DELTA_DAYS <? Z.abs (expires_in row `div` 86400)) = false ↔
  Z.abs (expires_in row `div` 86400) ≤ MAX_DELTA_DAYS.
Proof. rewrite Z.ltb_ge. done. Qed.

Lemma in_range_ordinal us :
  (0 <? toordinal_us us) && (toordinal_us us <=? MAXORDINAL) = true ↔
  0 ≤ us < MAXORDINAL * US_PER_DAY.
Proof.
  rewrite andb_true_iff, Z.ltb_lt, Z.leb_le.
  unfold toordinal_us, MAXORDINAL.
  change US_PER_DAY with 86400000000.
  pose proof (Z.div_mod us 86400000000 ltac:(done)) as Hdiv.
  pose proof (Z.mod_pos_bound us 86400000000 ltac:(done)) as Hmod.
  lia.
Qed.

(** X8.  Against an aware [now], the test of a row has an answer exactly
    when the ttl fits a [timedelta] and the expiration falls within the
    years 1 to 9999, and the answer is whether the expiration lies
    strictly before [now]; otherwise it raises [OverflowError].  It
    raises nothing else: a naive [created_at] never meets an aware [now]
    in the comparison. *)
Theorem expired_answers_or_overflows now o row :
  tzinfo now = Some o →
  (in_range row → expired now row = Ok (bool_decide (past now row))) ∧
  (¬ in_range row → expired now row = Raise OverflowError).
Proof.
  intros Hnow.
  assert (wall (aware_created_at row) = wall (created_at row)) as Hwall.
  { unfold aware_created_at. by destruct (tzinfo (created_at row)). }
  destruct (expired now row) as [b|x] eqn:Hexp.
  - assert (in_range row) as Hin.
    { revert Hexp. unfold expired, expiration_time_of, timedelta_seconds, add.
      destruct (MAX_DELTA_DAYS <? _) eqn:Htd; [done|].
      apply in_range_timedelta in Htd. cbn [td_us]. rewrite Hwall.
      destruct (_ && _) eqn:Hord; [|done].
      apply in_range_ordinal in Hord. by intros _. }
    split; [|done]. intros _. f_equal. by apply (expired_ok now o).
  - assert (x = OverflowError ∧ ¬ in_range row) as [-> Hout].
    { revert Hexp. unfold expired.
      destruct (expiration_time_of row) as [t|y] eqn:Ht.
      - intros Hgt. apply expiration_time_of_ok in Ht as [[ot Hot] _].
        by rewrite (gt_aware _ _ _ _ Hnow Hot) in Hgt.
      - intros [= <-]. split; [by eapply expiration_time_of_raise|].
        revert Ht. unfold expiration_time_of, timedelta_seconds, add.
        destruct (MAX_DELTA_DAYS <? _) eqn:Htd.
        + intros _ [Hbad _]. apply in_range_timedelta in Hbad. congruence.
        + cbn [td_us]. rewrite Hwall. destruct (_ && _) eqn:Hord; [done|].
          intros _ [_ Hbad]. apply in_range_ordinal in Hbad. congruence. }
    split; [done|]. by intros _.
Qed.

Lemma expired_answers_or_overflows_witness :
  expired (example.aware example.T utc)
    (row_of (1%N, example.token 10 3600 (example.naive example.T)))
  = Ok false ∧
  expired (example.aware example.T utc)
    (row_of (1%N, example.token 10 (-1)
               (example.naive 0)))
  = Raise OverflowError.
Proof.
  split.
  - apply (expired_answers_or_overflows (example.aware example.T utc) utc
             (row_of (1%N, example.token 10 3600
                             (example.naive example.T))) eq_refl).
    vm_compute. split; [discriminate|]. split; [discriminate|reflexivity].
  - apply (expired_answers_or_overflows (example.aware example.T utc) utc
             (row_of (1%N, example.token 10 (-1) (example.naive 0)))
             eq_refl).
    vm_compute. intros [_ [Hbad _]]. by apply Hbad.
Defined.

(** ** Lookups of the abuse report that find nothing *)

Lemma abuse_loop_outcome e ks items table w w' r :
  healthy e →
  abuse_loop e ks items table w = (w', r) →
  match r with
  | Ok _ => Forall (resolvable (credentials w) (usernames w)) (offenders items)
  | Raise x =>
      x = IndexError ∧
      Exists (λ kv, ¬ resolvable (credentials w) (usernames w) kv)
             (offenders items)
  end.
Proof.
  intros Hhealthy. unfold healthy in Hhealthy. unfold offenders.
  revert table w.
  induction items as [|[key value] items IH]; intros table w; cbn [abuse_loop].
  - intros [= <- <-]. constructor.
  - rewrite filter_cons. cbn [snd].
    destruct (Z.leb_spec 100 value) as [Hv|Hv].
    2:{ rewrite decide_False by lia. apply IH. }
    rewrite decide_True by done.
    unfold bind, select_consumer_id, select_username, session_execute,
      index0, ret, raise, print.
    rewrite Hhealthy.
    destruct (oauth2_credentials (db w) !! key) as [consumer|] eqn:Hc.
    2:{ intros [= <- <-]. split; [done|]. apply Exists_cons. left.
        intros (consumer & name & Hc' & _). cbn [fst] in Hc'.
        unfold credentials in Hc'. congruence. }
    simpl. rewrite Hhealthy.
    destruct (consumers (db w) !! consumer) as [name|] eqn:Hn.
    2:{ intros [= <- <-]. split; [done|]. apply Exists_cons. left.
        intros (consumer' & name & Hc' & Hn'). cbn [fst] in Hc'.
        unfold credentials, usernames in *. congruence. }
    simpl.
    set (w5 := {| db := db w; outbox := outbox w |}).
    intros Hrest. specialize (IH _ w5 Hrest).
    change (credentials w5) with (credentials w) in IH.
    change (usernames w5) with (usernames w) in IH.
    destruct r as [table'|x].
    + apply Forall_cons. split; [by exists consumer, name | done].
    + destruct IH as [-> IH]. split; [done|]. apply Exists_cons. by right.
Qed.

(** X9.  With a driver that raises on nothing, the loop over the tally
    returns exactly when every entry with a count of at least 100 has a
    consumer in the credential table and that consumer a username; if
    one has not, the loop raises [IndexError], the report is lost and
    the exception leaves the function. *)
Theorem abuse_loop_needs_every_lookup e ks items table w w' r :
  healthy e →
  abuse_loop e ks items table w = (w', r) →
  (∀ table', r = Ok table' →
     Forall (resolvable (credentials w) (usernames w)) (offenders items)) ∧
  (∀ x, r = Raise x →
     x = IndexError ∧
     Exists (λ kv, ¬ resolvable (credentials w) (usernames w) kv)
            (offenders items)) ∧
  (Forall (resolvable (credentials w) (usernames w)) (offenders items) →
     ∃ table', r = Ok table').
Proof.
  intros Hhealthy Hrun.
  pose proof (abuse_loop_outcome _ _ _ _ _ _ _ Hhealthy Hrun) as Hr.
  split_and!.
  - by intros table' ->.
  - by intros x ->.
  - intros Hall. destruct r as [table'|x]; [eauto|].
    destruct Hr as [_ Hex]. apply Exists_exists in Hex as (kv & Hin & Hno).
    rewrite Forall_forall in Hall. by destruct (Hno (Hall kv Hin)).
Qed.

Lemma abuse_loop_needs_every_lookup_witness :
  (abuse_loop example.env_ok "kong_dev" [(10%N, 150); (20%N, 40)] []
     (fresh {| oauth2_tokens := ∅;
               oauth2_credentials := ∅;
               consumers := example.directory_consumers |})).2
  = Raise IndexError.
Proof.
  destruct (abuse_loop example.env_ok "kong_dev" [(10%N, 150); (20%N, 40)] []
              (fresh {| oauth2_tokens := ∅;
                        oauth2_credentials := ∅;
                        consumers := example.directory_consumers |}))
    as [w' r] eqn:Hrun.
  destruct (abuse_loop_needs_every_lookup example.env_ok _ _ _ _ _ _
              (λ q, eq_refl) Hrun) as (Hok & Hraise & _).
  cbn [snd]. destruct r as [table|x]; [|by destruct (Hraise x eq_refl) as [-> _]].
  specialize (Hok table eq_refl).
  apply Forall_cons in Hok as [(consumer & name & Hc & _) _].
  vm_compute in Hc. discriminate Hc.
Defined.

(** ** A second run *)

Lemma filter_none {A} (P : A → Prop) `{!∀ x, Decision (P x)} (l : list A) :
  (∀ x, x ∈ l → ¬ P x) → filter P l = [].
Proof.
  induction l as [|x l IH]; intros Hl; [done|]. rewrite filter_cons.
  rewrite decide_False; [|apply Hl, elem_of_cons; by left].
  apply IH. intros y Hy. apply Hl, elem_of_cons. by right.
Qed.

Lemma nothing_due_after_a_run now (t : gmap uuid token_data) :
  filter (past now)
    (row_of <$> map_to_list
       (delete_rows (filter (past now) (row_of <$> map_to_list t)) t))
  = [].
Proof.
  apply filter_none. intros row (d & Hd & Hrow)%fetched_rows_elem Hpast.
  rewrite delete_rows_lookup in Hd.
  destruct (decide (id row ∈ _)) as [|Hnin]; [done|].
  apply Hnin. apply (deleted_ids now t (id row) d Hd).
  rewrite Hrow in Hpast. by apply past_row_of in Hpast.
Qed.

(** X10.  A run of [deleteExpiredIDs] right after one that returned, at
    the same clock reading, finds nothing to delete: it deletes no row,
    tallies and reports nothing, leaves the database as it found it, and
    both its counts are the count the first run ended with. *)
Theorem second_run_deletes_nothing
    e args args2 casshost ssl_opts host ks user pw w w1 l1 w2 l2 :
  deleteExpiredIDs e args casshost ssl_opts host ks user pw w = (w1, Ok l1) →
  deleteExpiredIDs e args2 casshost ssl_opts host ks user pw w1
  = (w2, Ok l2) →
  rowsdeleted l2 = 0 ∧
  consumer_tokens l2 = [] ∧
  consumer_abuse_table l2 = [] ∧
  db w2 = db w1 ∧
  count_before l2 = count_after l1 ∧
  count_after l2 = count_after l1.
Proof.
  intros (_ & _ & _ & _ & Ht1 & Ha1 & _)%deleteExpiredIDs_ok
         (_ & Hb2 & Hrd2 & Hct2 & Ht2 & Ha2 & Hc2 & Hn2 & Hrep2 & _)
         %deleteExpiredIDs_ok.
  rewrite Ht1, nothing_due_after_a_run in Hrd2, Hct2, Ht2.
  cbn in Hrd2, Hct2, Ht2. rewrite <- Ht1 in Ht2.
  rewrite Hct2 in Hrep2. apply Forall2_nil_inv_l in Hrep2.
  split_and!; [done|done|done| |congruence|congruence].
  unfold tokens, credentials, usernames in *.
  destruct (db w2), (db w1). simpl in *. congruence.
Qed.

Lemma second_run_deletes_nothing_witness :
  ∃ l2,
    (example.sweep example.env_ok example.args_quiet None
       (example.sweep example.env_ok example.args_mail None
          (fresh example.db_small)).1).2 = Ok l2 ∧
    rowsdeleted l2 = 0 ∧ count_before l2 = 2.
Proof.
  assert (∃ l, example.sweep example.env_ok example.args_mail None
                 (fresh example.db_small)
               = ((example.sweep example.env_ok example.args_mail None
                     (fresh example.db_small)).1, Ok l)) as [l1 Hl1].
  { eexists. vm_compute. reflexivity. }
  assert (∃ l, example.sweep example.env_ok example.args_quiet None
                 (example.sweep example.env_ok example.args_mail None
                    (fresh example.db_small)).1
               = ((example.sweep example.env_ok example.args_quiet None
                     (example.sweep example.env_ok example.args_mail None
                        (fresh example.db_small)).1).1, Ok l)) as [l2 Hl2].
  { eexists. vm_compute. reflexivity. }
  exists l2. split; [by rewrite Hl2|].
  unfold example.sweep in Hl1, Hl2.
  destruct (second_run_deletes_nothing _ _ _ _ _ _ _ _ _ _ _ _ _ _ Hl1 Hl2)
    as (Hrd & _ & _ & _ & Hb & _).
  split; [exact Hrd|]. rewrite Hb.
  revert Hl1. vm_compute. by intros [= <-].
Defined.

(** ** A cluster that cannot be reached *)




(** ** How long the abuse report can be *)

Lemma set_values_positive k v d :
  1 ≤ v → Forall (λ kv, 1 ≤ kv.2) d → Forall (λ kv, 1 ≤ kv.2) (pydict.set k v d).
Proof.
  intros Hv. induction d as [|[k' v'] d IH]; intros Hd; cbn [pydict.set].
  - by repeat constructor.
  - apply Forall_cons in Hd as [Hv' Hd].
    destruct (decide (k' = k)); apply Forall_cons; split; auto.
Qed.

Lemma tally_values_positive c ct :
  Forall (λ kv, 1 ≤ kv.2) ct → Forall (λ kv, 1 ≤ kv.2) (tally c ct).
Proof.
  intros Hct. unfold tally.
  destruct (pydict.get c ct) as [n|] eqn:Hn; apply set_values_positive;
    [|done|done|done].
  apply get_Some_elem in Hn. rewrite Forall_forall in Hct.
  specialize (Hct _ Hn). simpl in Hct. lia.
Qed.

Lemma tally_rows_values_positive dels ct :
  Forall (λ kv, 1 ≤ kv.2) ct → Forall (λ kv, 1 ≤ kv.2) (tally_rows dels ct).
Proof.
  unfold tally_rows. revert ct.
  induction dels as [|row dels IH]; intros ct Hct; [done|].
  cbn [foldl]. by apply IH, tally_values_positive.
Qed.

Lemma offenders_weigh_100 d :
  Forall (λ kv, 1 ≤ kv.2) d →
  100 * Z.of_nat (length (offenders d)) ≤ pydict.sum_values d.
Proof.
  unfold offenders, pydict.sum_values, pydict.values.
  induction d as [|[k v] d IH]; intros Hd; [done|].
  apply Forall_cons in Hd as [Hv Hd]. specialize (IH Hd).
  rewrite filter_cons. csimpl in *.
  destruct (decide (100 ≤ v)); cbn [length]; lia.
Qed.

(** X12.  When [deleteExpiredIDs] returns, the abuse report has at most
    one line for every hundred rows deleted; a run that deletes fewer
    than a hundred rows reports no abuse. *)
Theorem abuse_report_needs_a_hundred_deletions
    e args casshost ssl_opts host ks user pw w w' l :
  deleteExpiredIDs e args casshost ssl_opts host ks user pw w = (w', Ok l) →
  100 * Z.of_nat (length (consumer_abuse_table l)) ≤ rowsdeleted l ∧
  (rowsdeleted l < 100 → consumer_abuse_table l = []).
Proof.
  intros (_ & _ & Hrd & Hct & _ & _ & _ & _ & Hrep & _)%deleteExpiredIDs_ok.
  assert (100 * Z.of_nat (length (consumer_abuse_table l)) ≤ rowsdeleted l)
    as Hbound.
  { apply Forall2_length in Hrep. rewrite <- Hrep, Hrd.
    etrans; [apply offenders_weigh_100|].
    - rewrite Hct. apply tally_rows_values_positive. constructor.
    - rewrite Hct, sum_values_tally_rows. unfold pydict.sum_values. simpl. lia. }
  split; [done|]. intros Hfew.
  destruct (consumer_abuse_table l); [done|]. simpl in Hbound. lia.
Qed.

Lemma abuse_report_needs_a_hundred_deletions_witness :
  ∃ l, (example.sweep example.env_ok example.args_quiet None
          (fresh example.db_small)).2 = Ok l ∧
       consumer_abuse_table l = [].
Proof.
  assert (∃ l, example.sweep example.env_ok example.args_quiet None
                 (fresh example.db_small)
               = ((example.sweep example.env_ok example.args_quiet None
                     (fresh example.db_small)).1, Ok l)) as [l Hl].
  { eexists. vm_compute. reflexivity. }
  exists l. split; [by rewrite Hl|].
  unfold example.sweep in Hl.
  apply (abuse_report_needs_a_hundred_deletions _ _ _ _ _ _ _ _ _ _ _ Hl).
  revert Hl. vm_compute. by intros [= <-].
Defined.

(** ** When nothing fails, the run returns *)

Lemma expiration_time_of_in_range row :
  in_range row → ∃ x, expiration_time_of row = Ok x.
Proof.
  intros [Htd Hord]. unfold expiration_time_of, timedelta_seconds, add.
  apply in_range_timedelta in Htd. rewrite Htd. cbn [td_us].
  assert (wall (aware_created_at row) = wall (created_at row)) as ->.
  { unfold aware_created_at. by destruct (tzinfo (created_at row)). }
  apply in_range_ordinal in Hord. rewrite Hord. eauto.
Qed.

Lemma scan_completes e now o rows rd ct w :
  healthy e → tzinfo now = Some o → Forall in_range rows →
  ∃ w' c, scan e now rows rd ct w = (w', Ok c).
Proof.
  intros Hhealthy Hnow Hrows. revert rd ct w.
  induction Hrows as [|row rows Hrow Hrows IH]; intros rd ct w; cbn [scan].
  - by eexists _, _.
  - destruct (expiration_time_of_in_range row Hrow) as [x Hx].
    pose proof (expiration_time_of_ok _ _ Hx) as [[ox Hox] _].
    unfold bind at 1, lift at 1. rewrite Hx.
    unfold bind at 1, lift at 1. rewrite (gt_aware _ _ _ _ Hnow Hox).
    destruct (bool_decide _); [|apply IH].
    unfold bind at 1, print at 1. unfold bind at 1.
    unfold delete_token, session_execute. rewrite Hhealthy. apply IH.
Qed.

Lemma sendEmailAlert_completes e args body dbhost subject t w :
  (∀ c, smtp_fails e c = false) →
  ∃ w', sendEmailAlert e args body dbhost subject t w = (w', Ok tt).
Proof.
  intros Hsmtp. unfold sendEmailAlert.
  destruct (email args) as [to_addr|]; [|by eexists].
  destruct (smtpserver args) as [relay|]; [|by eexists].
  destruct (_ && _); [|by eexists].
  unfold bind, sendmail, smtp, bind, raise, ret. rewrite !Hsmtp. by eexists.
Qed.

(** X13.  A run of [deleteExpiredIDs] returns whenever the connection
    succeeds, the driver and the relay raise on nothing, every token's
    ttl and expiration are within the range of [timedelta] and
    [datetime], and every credential that has at least a hundred of the
    due tokens has a consumer with a username. *)
Theorem run_returns_when_nothing_fails
    e args casshost ssl_opts host ks user pw w :
  connect_fails e {| conn_host := host; conn_keyspace := ks;
                     conn_user := user; conn_password := pw;
                     conn_ca_certs := ssl_opts |} = false →
  healthy e →
  (∀ c, smtp_fails e c = false) →
  Forall in_range (row_of <$> map_to_list (tokens w)) →
  Forall (resolvable (credentials w) (usernames w))
    (offenders
       (tally_rows
          (filter (past {| wall := utcnow e; tzinfo := Some utc |})
             (row_of <$> map_to_list (tokens w))) [])) →
  ∃ w' l,
    deleteExpiredIDs e args casshost ssl_opts host ks user pw w = (w', Ok l).
Proof.
  intros Hconn Hhealthy Hsmtp Hrange Hresolve.
  pose proof Hhealthy as Hexec. unfold healthy in Hexec.
  unfold deleteExpiredIDs.
  unfold bind at 1, cluster_connect at 1. rewrite Hconn.
  set (w1 := {| db := db w; cluster_open := true |}).
  unfold bind at 1, select_count at 1, session_execute at 1. rewrite Hexec.
  unfold bind at 1, print at 1.
  set (w3 := {| db := db w1; outbox := outbox w1 |}).
  unfold bind at 1, select_tokens at 1, session_execute at 1. rewrite Hexec.
  change (oauth2_tokens (db w3)) with (tokens w).
  destruct (scan_completes e {| wall := utcnow e; tzinfo := Some utc |} utc
              (row_of <$> map_to_list (tokens w)) 0 [] w3
              Hhealthy eq_refl Hrange) as (w5 & [rd ct] & Hscan).
  rewrite (bind_step _ _ _ _ _ Hscan).
  pose proof (scan_preserves credentials _ _ _ _ _
                ltac:(done) ltac:(done) _ _ _ Hscan) as Hcred5.
  pose proof (scan_preserves usernames _ _ _ _ _
                ltac:(done) ltac:(done) _ _ _ Hscan) as Hname5.
  pose proof (scan_ok e {| wall := utcnow e; tzinfo := Some utc |} utc
                _ _ _ _ _ _ _ eq_refl Hscan) as (_ & _ & Hct).
  unfold bind at 1, select_count at 1, session_execute at 1. rewrite Hexec.
  unfold bind at 1, print at 1.
  set (w7 := {| db := db w5; outbox := outbox w5 |}).
  cbn [fst snd].
  destruct (abuse_loop e ks ct [] w7) as [w8 [table|x]] eqn:Habuse.
  2:{ exfalso.
      destruct (abuse_loop_outcome _ _ _ _ _ _ _ Hhealthy Habuse)
        as [_ Hex].
      apply Exists_exists in Hex as (kv & Hin & Hno). apply Hno.
      rewrite Forall_forall in Hresolve.
      change (credentials w7) with (credentials w5).
      change (usernames w7) with (usernames w5).
      unfold same in Hcred5, Hname5. rewrite Hcred5, Hname5.
      apply Hresolve. by rewrite <- Hct. }
  rewrite (bind_step _ _ _ _ _ Habuse).
  match goal with
  | |- context [sendEmailAlert e args ?body ?h ?s ?t] =>
      destruct (sendEmailAlert_completes e args body h s t w8 Hsmtp)
        as [w9 Hmail]
  end.
  rewrite (bind_step _ _ _ _ _ Hmail). by eexists _, _.
Qed.

Lemma run_returns_when_nothing_fails_witness :
  ∃ w' l, example.sweep example.env_ok example.args_mail None
            (fresh example.db_small) = (w', Ok l).
Proof.
  apply (run_returns_when_nothing_fails example.env_ok example.args_mail
           "cass01" None "localhost" "kong_dev" "dbausername" "dbapassword"
           (fresh example.db_small)).
  - reflexivity.
  - intros q. reflexivity.
  - intros c. reflexivity.
  - let rows := eval vm_compute in
      (row_of <$> map_to_list (tokens (fresh example.db_small))) in
    change (Forall in_range rows).
    repeat (apply Forall_cons; split;
            [split; [|split]; vm_compute; first [discriminate|reflexivity]|]).
    constructor.
  - let entries := eval vm_compute in
      (offenders
         (tally_rows
            (filter (past {| wall := utcnow example.env_ok;
                             tzinfo := Some utc |})
               (row_of <$> map_to_list (tokens (fresh example.db_small))))
            [])) in
    change (Forall (resolvable (credentials (fresh example.db_small))
                      (usernames (fresh example.db_small))) entries).
    constructor.
Defined.

(** ** Counting the rows *)

Lemma counts_differ_by_rowsdeleted
    e args casshost ssl_opts host ks user pw w w' l :
  deleteExpiredIDs e args casshost ssl_opts host ks user pw w = (w', Ok l) →
  count_after l = count_before l - rowsdeleted l.
Proof.
  intros (_ & Hb & Hrd & _ & Ht & Ha & _)%deleteExpiredIDs_ok.
  pose proof (delete_rows_size _ (tokens w)
                (deleted_rows_NoDup {| wall := utcnow e; tzinfo := Some utc |}
                   (tokens w))
                (deleted_rows_present _ (tokens w))) as Hsize.
  rewrite <- Ht in Hsize. lia.
Qed.

(** ** A later clock *)

(** X14.  Of two runs of [deleteExpiredIDs] that return on the same
    table, the one whose clock reads later leaves no token that the
    other one deleted: waiting longer only deletes more. *)
Theorem later_run_deletes_more
    e1 e2 args1 args2 casshost ssl_opts host ks user pw
    wa wb wa' wb' l1 l2 :
  tokens wa = tokens wb →
  utcnow e1 ≤ utcnow e2 →
  deleteExpiredIDs e1 args1 casshost ssl_opts host ks user pw wa
  = (wa', Ok l1) →
  deleteExpiredIDs e2 args2 casshost ssl_opts host ks user pw wb
  = (wb', Ok l2) →
  tokens wb' ⊆ tokens wa' ∧ rowsdeleted l1 ≤ rowsdeleted l2.
Proof.
  intros Hsame Hclock Hrun1 Hrun2.
  pose proof (deleteExpiredIDs_ok _ _ _ _ _ _ _ _ _ _ _ Hrun1)
    as (_ & Hb1 & _ & _ & Ht1 & Ha1 & _).
  pose proof (deleteExpiredIDs_ok _ _ _ _ _ _ _ _ _ _ _ Hrun2)
    as (_ & Hb2 & _ & _ & Ht2 & Ha2 & _).
  assert (tokens wb' ⊆ tokens wa') as Hsub.
  { apply map_subseteq_spec. intros k d.
    rewrite Ht1, Ht2, !delete_rows_lookup, <- Hsame.
    destruct (decide (k ∈ _)) as [|Hnin2]; [done|]. intros Hd.
    destruct (decide (k ∈ _)) as [Hin1|]; [|done].
    exfalso. apply Hnin2.
    apply (deleted_ids _ (tokens wa) k d Hd).
    apply (deleted_ids _ (tokens wa) k d Hd) in Hin1.
    revert Hin1. unfold instant. simpl. unfold utc. lia. }
  split; [done|].
  pose proof (counts_differ_by_rowsdeleted
                _ _ _ _ _ _ _ _ _ _ _ Hrun1) as Hc1.
  pose proof (counts_differ_by_rowsdeleted
                _ _ _ _ _ _ _ _ _ _ _ Hrun2) as Hc2.
  apply map_subseteq_size in Hsub.
  rewrite Hb1, Ha1 in Hc1. rewrite Hb2, Ha2 in Hc2. rewrite Hsame in Hc1.
  lia.
Qed.

Lemma later_run_deletes_more_witness :
  ∃ l1 l2,
    (example.sweep example.env_ok example.args_quiet None
       (fresh example.db_small)).2 = Ok l1 ∧
    (example.sweep example.env_later example.args_quiet None
       (fresh example.db_small)).2 = Ok l2 ∧
    rowsdeleted l1 ≤ rowsdeleted l2.
Proof.
  assert (∃ l, example.sweep example.env_ok example.args_quiet None
                 (fresh example.db_small)
               = ((example.sweep example.env_ok example.args_quiet None
                     (fresh example.db_small)).1, Ok l)) as [l1 Hl1].
  { eexists. vm_compute. reflexivity. }
  assert (∃ l, example.sweep example.env_later example.args_quiet None
                 (fresh example.db_small)
               = ((example.sweep example.env_later example.args_quiet None
                     (fresh example.db_small)).1, Ok l)) as [l2 Hl2].
  { eexists. vm_compute. reflexivity. }
  exists l1, l2. split_and!; [by rewrite Hl1|by rewrite Hl2|].
  unfold example.sweep in Hl1, Hl2.
  assert (utcnow example.env_ok ≤ utcnow example.env_later) as Hclock
    by (vm_compute; discriminate).
  exact (proj2 (later_run_deletes_more example.env_ok example.env_later
                  _ _ _ _ _ _ _ _
                  (fresh example.db_small) (fresh example.db_small)
                  _ _ l1 l2 eq_refl Hclock Hl1 Hl2)).
Defined.
